(** * RecFix: the recommendation pipeline of [server/src/services/youtubeService.js]

    A shallow embedding of the service module (duration parser, short-form
    filter, shuffle, video-id extractor, URL-list and watch-history
    orchestrators) and of the two handlers of
    [server/src/controllers/youtubeController.js], with the properties the
    specification states about them.

    Conventions of the embedding.
    - A JavaScript string is a [string] (a sequence of bytes; non-ASCII text
      is its UTF-8 encoding).  Every literal the code searches for is ASCII,
      so [includes] on bytes agrees with [includes] on code units, and
      [toLowerCase] only has to be right on the letters of these literals.
    - A property that may be [undefined] is an [option].
    - A JavaScript number that the code only uses as an integer is a
      [JS.number]: [NaN], an infinity, or a double whose value is an integer;
      [parseInt] and the arithmetic round to 53 significant bits as doubles
      do.
    - A function that can throw returns a [result].
    - The external world (the YouTube client, [new URL], [Date], the random
      source) is a Section variable, and the awaited calls thread a world
      state. *)

From Stdlib Require Import ZArith String Ascii List Lia QArith Qround Reals.
From Stdlib Require Import DecimalString DecimalNat DecimalFacts.
From stdpp Require Import base list strings sorting.

Open Scope string_scope.
Open Scope list_scope.
Open Scope Z_scope.

(** ** Thrown values and results *)

Inductive error : Type :=
  | TypeError (message : string)                     (* thrown by the engine *)
  | Error (message : string)                         (* [new Error(message)] of this module *)
  | ApiError (code : option Z) (message : string)
      (* a rejection of the YouTube client with a value of another class *)
  | SyntaxError (code : option Z) (message : string).
      (* a rejection of the YouTube client with an instance of [SyntaxError] *)

Inductive result (A : Type) : Type :=
  | Ok (a : A)
  | Throw (e : error).
Arguments Ok {A} a.
Arguments Throw {A} e.

(** ** The fragment of JavaScript the service relies on *)

Module JS.

(** Integer-valued numbers: [Num z] is the double whose value is the
    integer [z].  The two zeros are not told apart: [a || 0], the
    comparisons and [Math.log10] treat them alike. *)
Inductive number : Type :=
  | NaN
  | Num (z : Z)
  | Infinity
  | NegInfinity.

(** The double nearest to a natural number [n]: [n] itself below 2^53;
    from there on [n] is cut to its 53 leading bits, rounding to nearest and
    a tie to the even neighbour. *)
Definition round_magnitude (n : Z) : Z :=
  if n <? 2 ^ 53 then n
  else
    let e := Z.log2 n - 52 in
    let q := Z.shiftr n e in
    let r := Z.land n (Z.ones e) in
    let half := Z.shiftl 1 (e - 1) in
    let q' := if (r <? half) || ((r =? half) && Z.even q) then q else q + 1 in
    Z.shiftl q' e.

(** The number an exact integer result becomes: the nearest double, and an
    infinity when that is 2^1024 or more in magnitude. *)
Definition round (z : Z) : number :=
  let m := round_magnitude (Z.abs z) in
  if 2 ^ 1024 <=? m then (if z <? 0 then NegInfinity else Infinity)
  else Num (Z.sgn z * m).

Definition signum (a : number) : Z :=
  match a with
  | NaN => 0
  | Num z => Z.sgn z
  | Infinity => 1
  | NegInfinity => -1
  end.

(** [a + b] *)
Definition add (a b : number) : number :=
  match a, b with
  | NaN, _ | _, NaN => NaN
  | Num x, Num y => round (x + y)
  | Infinity, NegInfinity | NegInfinity, Infinity => NaN
  | Infinity, _ | _, Infinity => Infinity
  | NegInfinity, _ | _, NegInfinity => NegInfinity
  end.

(** [a - b] *)
Definition sub (a b : number) : number :=
  match a, b with
  | NaN, _ | _, NaN => NaN
  | Num x, Num y => round (x - y)
  | Infinity, Infinity | NegInfinity, NegInfinity => NaN
  | Infinity, _ | _, NegInfinity => Infinity
  | NegInfinity, _ | _, Infinity => NegInfinity
  end.

(** [a * b]: an infinity times zero is [NaN]. *)
Definition mul (a b : number) : number :=
  match a, b with
  | NaN, _ | _, NaN => NaN
  | Num x, Num y => round (x * y)
  | _, _ =>
      if signum a * signum b =? 0 then NaN
      else if signum a * signum b <? 0 then NegInfinity
      else Infinity
  end.

(** [a < b] and [a > b]: false as soon as an operand is [NaN]. *)
Definition lt (a b : number) : bool :=
  match a, b with
  | Num x, Num y => x <? y
  | NegInfinity, Num _ | NegInfinity, Infinity | Num _, Infinity => true
  | _, _ => false
  end.

Definition gt (a b : number) : bool := lt b a.

(** [undefined] converts to [NaN] in a comparison. *)
Definition of_option (o : option Z) : number :=
  match o with
  | Some z => Num z
  | None => NaN
  end.

(** [a || 0] on numbers: [NaN] and [0] are falsy. *)
Definition or_zero (a : number) : number :=
  match a with
  | NaN => Num 0
  | other => other
  end.

(** Characters. *)
Definition code (c : ascii) : Z := Z.of_nat (nat_of_ascii c).

Definition isDigit (c : ascii) : bool := (48 <=? code c) && (code c <=? 57).

Definition digit (c : ascii) : Z := code c - 48.

Definition isWhite (c : ascii) : bool :=
  (code c =? 32) || ((9 <=? code c) && (code c <=? 13)).

Definition lower (c : ascii) : ascii :=
  if (65 <=? code c) && (code c <=? 90)
  then ascii_of_nat (nat_of_ascii c + 32)
  else c.

(** [s.toLowerCase()], on the ASCII letters. *)
Fixpoint toLowerCase (s : string) : string :=
  match s with
  | EmptyString => EmptyString
  | String c s' => String (lower c) (toLowerCase s')
  end.

(** [s.includes(needle)]. *)
Fixpoint includes (needle s : string) : bool :=
  String.prefix needle s ||
  match s with
  | EmptyString => false
  | String _ s' => includes needle s'
  end.

(** [s.slice(1)]. *)
Definition slice1 (s : string) : string :=
  match s with
  | EmptyString => EmptyString
  | String _ s' => s'
  end.

(** [xs.join(sep)]. *)
Fixpoint join (sep : string) (xs : list string) : string :=
  match xs with
  | [] => ""
  | [x] => x
  | x :: xs' => x +:+ sep +:+ join sep xs'
  end.

(** A value interpolated in a template literal. *)
Definition interpolate (o : option string) : string :=
  match o with
  | Some s => s
  | None => "undefined"
  end.

(** The longest prefix of decimal digits, and what follows it. *)
Fixpoint span_digits (s : string) : string * string :=
  match s with
  | EmptyString => ("", "")
  | String c s' =>
      if isDigit c
      then let '(d, r) := span_digits s' in (String c d, r)
      else ("", s)
  end.

Fixpoint decimal_value (acc : Z) (s : string) : Z :=
  match s with
  | EmptyString => acc
  | String c s' => decimal_value (10 * acc + digit c) s'
  end.

Definition hexDigit (c : ascii) : option Z :=
  if isDigit c then Some (digit c)
  else if (97 <=? code c) && (code c <=? 102) then Some (code c - 87)
  else if (65 <=? code c) && (code c <=? 70) then Some (code c - 55)
  else None.

(** Value of the longest prefix of hexadecimal digits; [None] if it is empty. *)
Fixpoint hex_value (acc : option Z) (s : string) : option Z :=
  match s with
  | EmptyString => acc
  | String c s' =>
      match hexDigit c with
      | Some d => hex_value (Some (16 * default 0 acc + d)) s'
      | None => acc
      end
  end.

Fixpoint trimStart (s : string) : string :=
  match s with
  | String c s' => if isWhite c then trimStart s' else s
  | EmptyString => EmptyString
  end.

(** [parseInt(s)] with no radix: leading white space, an optional sign, a
    [0x] prefix for hexadecimal, then the longest run of digits; [NaN] when
    there is no digit.  The result is the double nearest to the integer the
    digits denote, as V8 computes it (the language also allows an engine to
    read the decimal digits after the 20th as zeros). *)
Definition parseInt (s : string) : number :=
  let s := trimStart s in
  let '(sign, s) :=
    match s with
    | String "-" r => (-1, r)
    | String "+" r => (1, r)
    | _ => (1, s)
    end in
  if String.prefix "0x" s || String.prefix "0X" s
  then match hex_value None (slice1 (slice1 s)) with
       | Some v => round (sign * v)
       | None => NaN
       end
  else match span_digits s with
       | (EmptyString, _) => NaN
       | (d, _) => round (sign * decimal_value 0 d)
       end.

End JS.

(** ** Duration parser *)

(** The rest of [s] after the leftmost occurrence of [PT]. *)
Fixpoint after_PT (s : string) : option string :=
  match s with
  | EmptyString => None
  | String c s' =>
      if String.prefix "PT" s then Some (JS.slice1 s') else after_PT s'
  end.

(** An optional group [(\d+X)?] tried at the head of [s]: the captured text
    ([None] when the group does not take part) and the rest of the input.
    [\d+] is greedy; giving digits back cannot help, since the character after
    a shorter run is a digit and [X] is a letter. *)
Definition optional_group (X : ascii) (s : string) : option string * string :=
  match JS.span_digits s with
  | (String d ds, String c r) =>
      if Ascii.eqb c X
      then (Some (String d ds +:+ String X ""), r)
      else (None, s)
  | _ => (None, s)
  end.

(** [duration.match(/PT(\d+H)?(\d+M)?(\d+S)?/)]: [None] is [null], otherwise
    the three capture groups.  The pattern is not anchored. *)
Definition duration_match (duration : string)
  : option (option string * option string * option string) :=
  match after_PT duration with
  | None => None
  | Some s =>
      let '(g1, s) := optional_group "H" s in
      let '(g2, s) := optional_group "M" s in
      let '(g3, _) := optional_group "S" s in
      Some (g1, g2, g3)
  end.

(** [parseDuration(duration)].  [duration] is [None] when the property is
    undefined: calling [.match] on it throws, as does indexing a [null]
    match. *)
Definition parseDuration (duration : option string) : result JS.number :=
  match duration with
  | None => Throw (TypeError "Cannot read properties of undefined (reading 'match')")
  | Some d =>
      match duration_match d with
      | None => Throw (TypeError "Cannot read properties of null (reading '1')")
      | Some (g1, g2, g3) =>
          let seconds := JS.Num 0 in
          let seconds :=
            match g1 with
            | Some t => JS.add seconds (JS.mul (JS.parseInt t) (JS.Num 3600))
            | None => seconds
            end in
          let seconds :=
            match g2 with
            | Some t => JS.add seconds (JS.mul (JS.parseInt t) (JS.Num 60))
            | None => seconds
            end in
          let seconds :=
            match g3 with
            | Some t => JS.add seconds (JS.parseInt t)
            | None => seconds
            end in
          Ok seconds
      end
  end.

(** ** Data model *)

Record Dimension : Type := {
  height : option Z;
  width : option Z
}.

Record ContentDetails : Type := {
  duration : option string;
  dimension : option Dimension
}.

Record Snippet : Type := {
  title : option string;
  description : option string;
  tags : option (list string);
  channelId : option string;
  publishedAt : option string
}.

Record Statistics : Type := {
  viewCount : option string;
  likeCount : option string
}.

(** The [id] of an item: a string in a [videos.list] answer, an object
    [{kind, videoId}] in a [search.list] answer. *)
Inductive IdValue : Type :=
  | IdString (s : string)
  | IdObject (kind videoId : string).

Record VideoItem : Type := {
  id : option IdValue;
  snippet : option Snippet;
  contentDetails : option ContentDetails;
  statistics : option Statistics
}.

Record ResultPage : Type := {
  items : list VideoItem;
  nextPageToken : option string
}.

(** ** Short-form filter *)

Definition MAX_RESULTS : nat := 15.

Definition shortsKeywords : list string :=
  ["#shorts"; "#short"; "#ytshorts"; "shorts/"; "/shorts"; "youtube.com/shorts"].

(** The template literal of line 15, lower-cased. *)
Definition textContent (sn : Snippet) : string :=
  JS.toLowerCase
    (JS.interpolate (title sn) +:+ " " +:+ JS.interpolate (description sn) +:+ " "
       +:+ JS.join " " (default [] (tags sn))).

Definition hasShortsKeyword (sn : Snippet) : bool :=
  existsb (fun keyword => JS.includes keyword (textContent sn)) shortsKeywords.

(** [video.id && typeof video.id === 'string' && video.id.includes('/shorts/')] *)
Definition idIsShortsUrl (video : VideoItem) : bool :=
  match id video with
  | Some (IdString s) => JS.includes "/shorts/" s
  | _ => false
  end.

(** [dimension] present and [height > width]. *)
Definition isVertical (cd : ContentDetails) : bool :=
  match dimension cd with
  | Some dim => JS.gt (JS.of_option (height dim)) (JS.of_option (width dim))
  | None => false
  end.

Definition isYoutubeShort (video : VideoItem) : result bool :=
  match contentDetails video, snippet video with
  | Some cd, Some sn =>
      match parseDuration (duration cd) with
      | Throw e => Throw e
      | Ok d =>
          if JS.lt d (JS.Num 180) then Ok true
          else if hasShortsKeyword sn then Ok true
          else if idIsShortsUrl video then Ok true
          else if isVertical cd then Ok true
          else Ok false
      end
  | _, _ => Ok true
  end.

(** ** Shuffle-with-relevance *)

Section Shuffle.
Context {A : Type}.

(** [if (chunk[i])]: whether an element of the array is truthy.  Every
    object is. *)
Variable truthy : A -> bool.

(** [random n] is the value of the [n]-th call of [Math.random()]. *)
Variable random : nat -> Q.

(** [Math.ceil(n / 3)] *)
Definition ceil_third (n : nat) : nat := ((n + 2) / 3)%nat.

(** [videos.slice(i, j)] *)
Definition slice (i j : nat) (videos : list A) : list A :=
  take (j - i) (drop i videos).

(** The loop of lines 254-256; [fuel] bounds the number of iterations. *)
Fixpoint chunk_loop (fuel i chunkSize : nat) (videos : list A) : list (list A) :=
  match fuel with
  | O => []
  | S fuel' =>
      if (i <? length videos)%nat
      then slice i (i + chunkSize) videos
             :: chunk_loop fuel' (i + chunkSize)%nat chunkSize videos
      else []
  end.

(** [Math.floor(Math.random() * (i + 1))] at the [n]-th draw. *)
Definition random_index (n i : nat) : nat :=
  Z.to_nat (Qfloor (random n * inject_Z (Z.of_nat (i + 1)))).

(** [[chunk[i], chunk[j]] = [chunk[j], chunk[i]]].  Both indices are
    within the array whenever [random] ranges over [0, 1). *)
Definition swap (chunk : list A) (i j : nat) : list A :=
  match chunk !! i, chunk !! j with
  | Some a, Some b => <[j:=a]> (<[i:=b]> chunk)
  | _, _ => chunk
  end.

(** [for (let i = ...; i > 0; i--)]: the Fisher-Yates pass over one chunk,
    starting at draw [n]; returns the chunk and the next draw. *)
Fixpoint fisherYates (i : nat) (chunk : list A) (n : nat) : list A * nat :=
  match i with
  | O => (chunk, n)
  | S i' => fisherYates i' (swap chunk i (random_index n i)) (S n)
  end.

(** [chunks.forEach(chunk => ...)] of lines 259-264. *)
Fixpoint shuffle_chunks (chunks : list (list A)) (n : nat) : list (list A) * nat :=
  match chunks with
  | [] => ([], n)
  | chunk :: rest =>
      let '(chunk', n') := fisherYates (length chunk - 1) chunk n in
      let '(rest', n'') := shuffle_chunks rest n' in
      (chunk' :: rest', n'')
  end.

(** [Math.max(...chunks.map(chunk => chunk.length))]; with no chunk the
    source gets [-Infinity] and the loop below does not run, as with 0. *)
Definition maxLength (chunks : list (list A)) : nat :=
  foldr (fun chunk m => Nat.max (length chunk) m) O chunks.

(** [if (chunk[i]) result.push(chunk[i])]: what one chunk adds at index [i]. *)
Definition pushed (i : nat) (chunk : list A) : list A :=
  match chunk !! i with
  | Some x => if truthy x then [x] else []
  | None => []
  end.

(** [chunks.forEach(chunk => { ... })] at index [i]. *)
Definition column (i : nat) (chunks : list (list A)) : list A :=
  flat_map (pushed i) chunks.

Definition interleave (chunks : list (list A)) : list A :=
  flat_map (fun i => column i chunks) (seq 0 (maxLength chunks)).

Definition shuffleWithRelevance (videos : list A) : list A :=
  let chunkSize := ceil_third (length videos) in
  let chunks := chunk_loop (length videos) 0 chunkSize videos in
  let '(chunks, _) := shuffle_chunks chunks 0 in
  interleave chunks.

End Shuffle.

(** A video is an object, and an object is truthy. *)
Definition object_truthy (video : VideoItem) : bool := true.

(** ** The external world *)

(** What [new URL(url)] exposes of a parsed URL. *)
Record URL : Type := {
  hostname : string;
  pathname : string;
  searchParams : list (string * string)
}.

(** [searchParams.get(name)]: the first value under [name], else [null]. *)
Fixpoint searchParams_get (name : string) (params : list (string * string))
  : option string :=
  match params with
  | [] => None
  | (k, v) :: rest => if String.eqb k name then Some v else searchParams_get name rest
  end.

(** Arguments of [youtube.videos.list]. *)
Module VideosList.
Record params : Type := {
  part : string;
  id : string;
  key : option string
}.
End VideosList.

(** Arguments of [youtube.search.list]; [relatedToVideoId] is
    [videoDetails.id || videoDetails]. *)
Inductive RelatedTo : Type :=
  | RelatedId (i : IdValue)
  | RelatedVideo (v : VideoItem).

Module SearchList.
Record params : Type := {
  part : string;
  relatedToVideoId : RelatedTo;
  type : string;
  maxResults : Z;
  safeSearch : string;
  order : string;
  pageToken : option string
}.
End SearchList.

(** [response.data] of both calls. *)
Record ResponseData : Type := {
  data_items : option (list VideoItem);
  data_nextPageToken : option string
}.

(** How a call of the YouTube client settles: it resolves to a response, or
    it rejects with a value of which the code reads [code] and [message] and
    tests [instanceof SyntaxError]; [RejectedSyntaxError] is a rejection with
    a value that passes this test, [Rejected] one with any other value. *)
Inductive Settled : Type :=
  | Resolved (data : ResponseData)
  | Rejected (code : option Z) (message : string)
  | RejectedSyntaxError (code : option Z) (message : string).

(** A watch-history entry of a Takeout export. *)
Record HistoryEntry : Type := {
  titleUrl : option string;
  time : option string
}.

(** A string is truthy when it is defined and not empty. *)
Definition truthy_string (o : option string) : bool :=
  match o with
  | Some (String _ _) => true
  | _ => false
  end.

Definition truthy_id (o : option IdValue) : bool :=
  match o with
  | Some (IdString s) => truthy_string (Some s)
  | Some (IdObject _ _) => true
  | None => false
  end.

(** The HTTP answer of a handler. *)
Inductive Body : Type :=
  | ErrorBody (error : string) (details : option string)
  | RecommendationsBody (recommendations : list VideoItem)
      (nextPageToken : option string) (total : nat)
      (uniqueChannels : nat) (videosPerChannel : Q).

Record Response : Type := {
  status : Z;
  body : Body
}.

Record Request : Type := {
  body_urls : option (list string);   (* [None]: [req.body.urls] is not an array *)
  query_pageToken : option string
}.

Definition error_code (e : error) : option Z :=
  match e with
  | ApiError code _ => code
  | SyntaxError code _ => code
  | _ => None
  end.

Definition error_message (e : error) : string :=
  match e with
  | TypeError m => m
  | Error m => m
  | ApiError _ m => m
  | SyntaxError _ m => m
  end.

(** [error instanceof SyntaxError] *)
Definition instanceof_SyntaxError (e : error) : bool :=
  match e with
  | SyntaxError _ _ => true
  | _ => false
  end.

(** A JavaScript [Set] of strings, in insertion order. *)
Definition Set_add (x : string) (s : list string) : list string :=
  if bool_decide (x ∈ s) then s else s ++ [x].

(** [a - b] on numbers. *)
Definition number_sub (a b : JS.number) : JS.number := JS.sub a b.

(** [array.sort(compareFn)]: a stable sort; [x] moves behind [y] when
    [compareFn(x, y) > 0] (a [NaN] counts as 0). *)
Section Sort.
Context {A : Type}.
Variable compareFn : A -> A -> JS.number.

Fixpoint sort_insert (x : A) (l : list A) : list A :=
  match l with
  | [] => [x]
  | y :: l' =>
      if JS.gt (compareFn x y) (JS.Num 0)
      then y :: sort_insert x l'
      else x :: l
  end.

Definition Array_sort (l : list A) : list A := foldr sort_insert [] l.
End Sort.

(** [array.filter(p)] with a predicate that can throw. *)
Fixpoint Array_filter {A : Type} (p : A -> result bool) (l : list A)
  : result (list A) :=
  match l with
  | [] => Ok []
  | x :: l' =>
      match p x with
      | Throw e => Throw e
      | Ok b =>
          match Array_filter p l' with
          | Throw e => Throw e
          | Ok r => Ok (if b then x :: r else r)
          end
      end
  end.

(** The elements a throwing predicate keeps. *)
Definition passes {A : Type} (p : A -> result bool) (x : A) : bool :=
  match p x with
  | Ok true => true
  | _ => false
  end.

(** [!isYoutubeShort(video)] *)
Definition notShort (video : VideoItem) : result bool :=
  match isYoutubeShort video with
  | Ok b => Ok (negb b)
  | Throw e => Throw e
  end.

(** ** The service and the URL handler *)

Declare Scope js_scope.
Delimit Scope js_scope with js.

Section Service.
(** The state of everything outside the process. *)
Variable World : Type.
(** [new URL(url)]; [None] when it throws. *)
Variable new_URL : string -> option URL.
(** [await youtube.videos.list(params)] and [await youtube.search.list(params)]:
    the answer, or the rejection, and the world afterwards. *)
Variable videos_list : VideosList.params -> World -> World * Settled.
Variable search_list : SearchList.params -> World -> World * Settled.
(** The time value of [new Date(time)]; [NaN] for an invalid date. *)
Variable Date_parse : string -> JS.number.
(** [process.env]. *)
Variable YOUTUBE_API_KEY : option string.
Variable NODE_ENV : option string.

(** Awaited computations: a world transformer that returns or throws. *)
Definition M (T : Type) : Type := World -> World * result T.

Definition ret {T} (a : T) : M T := fun w => (w, Ok a).

Definition throw {T} (e : error) : M T := fun w => (w, Throw e).

Definition bind {T U} (m : M T) (k : T -> M U) : M U :=
  fun w =>
    match m w with
    | (w', Ok a) => k a w'
    | (w', Throw e) => (w', Throw e)
    end.

Definition try_catch {T} (m : M T) (handler : error -> M T) : M T :=
  fun w =>
    match m w with
    | (w', Ok a) => (w', Ok a)
    | (w', Throw e) => handler e w'
    end.

Definition lift {T} (r : result T) : M T := fun w => (w, r).

(** [await call]: a rejection is thrown. *)
Definition await (call : World -> World * Settled) : M ResponseData :=
  fun w =>
    match call w with
    | (w', Resolved data) => (w', Ok data)
    | (w', Rejected code message) => (w', Throw (ApiError code message))
    | (w', RejectedSyntaxError code message) => (w', Throw (SyntaxError code message))
    end.

Notation "x <- m ;; k" := (bind m (fun x => k))
  (at level 100, m at next level, right associativity) : js_scope.
Local Open Scope js_scope.

Definition extractVideoId (url : string) : option string :=
  match new_URL url with
  | Some urlObj =>
      if JS.includes "youtube.com" (hostname urlObj)
      then searchParams_get "v" (searchParams urlObj)
      else if JS.includes "youtu.be" (hostname urlObj)
      then Some (JS.slice1 (pathname urlObj))
      else None
  | None => None
  end.

(** The argument of [youtube.videos.list] at line 44. *)
Definition detailsParams (videoId : string) (apiKey : option string)
  : VideosList.params :=
  {| VideosList.part := "snippet,contentDetails,statistics";
     VideosList.id := videoId;
     VideosList.key := apiKey |}.

Definition getVideoDetails (videoId : string) (apiKey : option string)
  : M (option VideoItem) :=
  try_catch
    (response <- await (videos_list (detailsParams videoId apiKey)) ;;
     match data_items response with
     | Some (item :: _) => ret (Some item)
     | _ => ret None
     end)
    (fun _ => ret None).

(** [searchParams] of lines 65-79. *)
Definition relatedParams (videoDetails : VideoItem) (pageToken : option string)
  : SearchList.params :=
  let videoId :=
    match id videoDetails with
    | Some i => if truthy_id (Some i) then RelatedId i else RelatedVideo videoDetails
    | None => RelatedVideo videoDetails
    end in
  {| SearchList.part := "snippet";
     SearchList.relatedToVideoId := videoId;
     SearchList.type := "video";
     SearchList.maxResults := 50;
     SearchList.safeSearch := "none";
     SearchList.order := "relevance";
     SearchList.pageToken := if truthy_string pageToken then pageToken else None |}.

Definition getRelatedVideos (videoDetails : VideoItem) (apiKey : option string)
    (pageToken : option string) : M ResultPage :=
  try_catch
    (response <- await (search_list (relatedParams videoDetails pageToken)) ;;
     match data_items response with
     | Some (item :: rest) =>
         ret {| items := item :: rest;
                nextPageToken := data_nextPageToken response |}
     | _ => throw (Error "No related videos found")
     end)
    (fun error => throw error).

(** The [for (const url of videoUrls)] loop, [results] being what was pushed
    so far. *)
Fixpoint results_loop (videoUrls : list string) (apiKey pageToken : option string)
    (results : list VideoItem) : M (list VideoItem) :=
  match videoUrls with
  | [] => ret results
  | url :: rest =>
      match extractVideoId url with
      | Some (String _ _ as videoId) =>
          videoDetails <- getVideoDetails videoId apiKey ;;
          match videoDetails with
          | None => results_loop rest apiKey pageToken results
          | Some videoDetails =>
              relatedVideos <- getRelatedVideos videoDetails apiKey pageToken ;;
              results_loop rest apiKey pageToken
                (match items relatedVideos with
                 | [] => results
                 | _ => results ++ items relatedVideos
                 end)
          end
      | _ => results_loop rest apiKey pageToken results
      end
  end.

Definition processVideoUrls (videoUrls : list string) (apiKey pageToken : option string)
  : M ResultPage :=
  try_catch
    (results <- results_loop videoUrls apiKey pageToken [] ;;
     match results with
     | [] => throw (Error "No recommendations found")
     | _ =>
         filtered <- lift (Array_filter notShort results) ;;
         let processedResults := take MAX_RESULTS filtered in
         ret {| items := processedResults; nextPageToken := pageToken |}
     end)
    (fun error => throw error).

Definition isWatchEntry (entry : HistoryEntry) : bool :=
  truthy_string (titleUrl entry)
  && JS.includes "youtube.com/watch" (default "" (titleUrl entry)).

(** [new Date(b.time) - new Date(a.time)] *)
Definition Date_of (entry : HistoryEntry) : JS.number :=
  match time entry with
  | Some t => Date_parse t
  | None => JS.NaN
  end.

Definition byMostRecent (a b : HistoryEntry) : JS.number :=
  number_sub (Date_of b) (Date_of a).

(** The entries the [forEach] of line 153 visits. *)
Definition recentEntries (watchHistory : list HistoryEntry) : list HistoryEntry :=
  take 10 (Array_sort byMostRecent (List.filter isWatchEntry watchHistory)).

(** The content of [videoIds] after the [forEach], in insertion order. *)
Definition addVideoId (videoIds : list string) (entry : HistoryEntry) : list string :=
  match extractVideoId (default "" (titleUrl entry)) with
  | Some (String _ _ as videoId) => Set_add videoId videoIds
  | _ => videoIds
  end.

Definition collectIds (entries : list HistoryEntry) : list string :=
  fold_left addVideoId entries [].

Definition watchUrl (id : string) : string := "https://youtube.com/watch?v=" +:+ id.

Definition takeoutUrls (watchHistory : list HistoryEntry) : list string :=
  map watchUrl (collectIds (recentEntries watchHistory)).

Definition processTakeoutFile (watchHistory : list HistoryEntry)
    (apiKey : option string) : M ResultPage :=
  processVideoUrls (takeoutUrls watchHistory) apiKey None.

(** [channelStats] of the handler: the distinct channel ids, or the
    [TypeError] of reading [channelId] on a missing snippet. *)
Fixpoint channelKeys (videos : list VideoItem) (keys : list (option string))
  : result (list (option string)) :=
  match videos with
  | [] => Ok keys
  | video :: rest =>
      match snippet video with
      | None => Throw (TypeError "Cannot read properties of undefined (reading 'channelId')")
      | Some sn =>
          channelKeys rest
            (if bool_decide (channelId sn ∈ keys) then keys else keys ++ [channelId sn])
      end
  end.

(** [Math.round(total / size * 10) / 10] *)
Definition videosPerChannel_of (total size : nat) : Q :=
  (Qfloor ((Z.of_nat total # 1) / (Z.of_nat size # 1) * (10 # 1) + (1 # 2)) # 10)%Q.

Definition details_of (e : error) : option string :=
  if bool_decide (NODE_ENV = Some "development") then Some (error_message e) else None.

Definition handleUrlInput (req : Request) : World -> World * Response :=
  fun w =>
    match body_urls req with
    | None | Some [] =>
        (w, {| status := 400; body := ErrorBody "Please provide valid YouTube URLs" None |})
    | Some urls =>
        if (5 <? length urls)%nat
        then (w, {| status := 400;
                    body := ErrorBody "Maximum 5 URLs allowed at once for better recommendations" None |})
        else
          let videoIds := List.filter truthy_string (map extractVideoId urls) in
          match videoIds with
          | [] => (w, {| status := 400; body := ErrorBody "No valid YouTube URLs found" None |})
          | _ =>
              match
                (result <- processVideoUrls urls YOUTUBE_API_KEY (query_pageToken req) ;;
                 match items result with
                 | [] =>
                     ret {| status := 404;
                            body := ErrorBody "No recommendations found. Try different videos." None |}
                 | _ =>
                     channelStats <- lift (channelKeys (items result) []) ;;
                     ret {| status := 200;
                            body := RecommendationsBody (items result) (nextPageToken result)
                                      (length (items result)) (length channelStats)
                                      (videosPerChannel_of (length (items result))
                                         (length channelStats)) |}
                 end) w
              with
              | (w', Ok response) => (w', response)
              | (w', Throw error) =>
                  (w',
                   if bool_decide (error_code error = Some 403)
                   then {| status := 403;
                           body := ErrorBody "YouTube API quota exceeded. Please try again later."
                                     (details_of error) |}
                   else if bool_decide (error_code error = Some 404)
                   then {| status := 404;
                           body := ErrorBody
                                     "One or more videos not found. They might be private or deleted."
                                     (details_of error) |}
                   else {| status := 500;
                           body := ErrorBody "Failed to get recommendations" (details_of error) |})
              end
          end
    end.

End Service.

Arguments ret {World T} a w.
Arguments throw {World T} e w.
Arguments bind {World T U} m k w.
Arguments try_catch {World T} m handler w.
Arguments lift {World T} r w.
Arguments await {World} call w.
Arguments getVideoDetails {World} videos_list videoId apiKey w.
Arguments getRelatedVideos {World} search_list videoDetails apiKey pageToken w.
Arguments results_loop {World} new_URL videos_list search_list videoUrls apiKey pageToken results w.
Arguments processVideoUrls {World} new_URL videos_list search_list videoUrls apiKey pageToken w.
Arguments processTakeoutFile {World} new_URL videos_list search_list Date_parse watchHistory apiKey w.
Arguments handleUrlInput {World} new_URL videos_list search_list YOUTUBE_API_KEY NODE_ENV req w.

(** ** The popularity term of the scorer *)

Module Score.

(** Numbers as the scorer uses them: the two infinities and [NaN] are
    results of [Math.log10]; a finite double is idealised as a real. *)
Inductive number : Type :=
  | NaN
  | NegInfinity
  | PosInfinity
  | Finite (r : R).

(** [Math.log10(n)] on an integer-valued [n]. *)
Definition log10 (n : JS.number) : number :=
  match n with
  | JS.NaN | JS.NegInfinity => NaN
  | JS.Infinity => PosInfinity
  | JS.Num z =>
      if z <? 0 then NaN
      else if z =? 0 then NegInfinity
      else Finite (ln (IZR z) / ln 10)%R
  end.

(** [x / 10] *)
Definition div10 (x : number) : number :=
  match x with
  | Finite r => Finite (r / 10)%R
  | other => other
  end.

(** [Math.min(a, b)] *)
Definition min (a b : number) : number :=
  match a, b with
  | NaN, _ | _, NaN => NaN
  | NegInfinity, _ | _, NegInfinity => NegInfinity
  | PosInfinity, x | x, PosInfinity => x
  | Finite x, Finite y => Finite (Rmin x y)
  end.

(** [a + b] *)
Definition add (a b : number) : number :=
  match a, b with
  | NaN, _ | _, NaN => NaN
  | NegInfinity, PosInfinity | PosInfinity, NegInfinity => NaN
  | NegInfinity, _ | _, NegInfinity => NegInfinity
  | PosInfinity, _ | _, PosInfinity => PosInfinity
  | Finite x, Finite y => Finite (x + y)
  end.

(** [parseInt(video.statistics.viewCount) || 0] *)
Definition viewCount_of (st : Statistics) : JS.number :=
  JS.or_zero (JS.parseInt (JS.interpolate (viewCount st))).

(** [Math.min(0.4, Math.log10(viewCount) / 10)] *)
Definition popularityScore (st : Statistics) : number :=
  min (Finite (4 / 10)%R) (div10 (log10 (viewCount_of st))).

(** Lines 208-214 of [calculateRelevanceScore]: [score] before and after
    [score += popularityScore]. *)
Definition addPopularity (video : VideoItem) (score : number) : number :=
  match statistics video with
  | Some st => add score (popularityScore st)
  | None => score
  end.

End Score.

(** ** A model of [new URL] for concrete inputs

    Absolute [http:] and [https:] URLs without credentials, escapes or dot
    segments: the host is lower-cased and loses its port, an empty path is
    [/], and the query is split on [&] and on the first [=].  The properties
    of [extractVideoId] below hold for every parser; this one only serves to
    run the code on example URLs. *)

Fixpoint break_at (p : ascii -> bool) (s : string) : string * string :=
  match s with
  | EmptyString => ("", "")
  | String c s' =>
      if p c then ("", s)
      else let '(a, b) := break_at p s' in (String c a, b)
  end.

Fixpoint split_on (sep : ascii) (s : string) : list string :=
  match s with
  | EmptyString => [""]
  | String c s' =>
      if Ascii.eqb c sep then "" :: split_on sep s'
      else match split_on sep s' with
           | h :: t => String c h :: t
           | [] => [String c ""]
           end
  end.

Fixpoint string_drop (n : nat) (s : string) : string :=
  match n, s with
  | S n', String _ s' => string_drop n' s'
  | _, _ => s
  end.

Definition one_of (cs : string) (c : ascii) : bool :=
  existsb (Ascii.eqb c) (list_ascii_of_string cs).

Definition parse_query (q : string) : list (string * string) :=
  map (fun kv => let '(k, v) := break_at (Ascii.eqb "=") kv in (k, JS.slice1 v))
      (List.filter (fun kv => negb (String.eqb kv "")) (split_on "&" q)).

Definition http_URL (url : string) : option URL :=
  let after_scheme :=
    if String.prefix "https://" (JS.toLowerCase url) then Some (string_drop 8 url)
    else if String.prefix "http://" (JS.toLowerCase url) then Some (string_drop 7 url)
    else None in
  match after_scheme with
  | None => None
  | Some rest =>
      let '(authority, rest) := break_at (one_of "/?#") rest in
      let host := JS.toLowerCase (fst (break_at (Ascii.eqb ":") authority)) in
      if String.eqb host "" then None
      else
        let '(path, rest) := break_at (one_of "?#") rest in
        let query :=
          match rest with
          | String "?" q => fst (break_at (Ascii.eqb "#") q)
          | _ => ""
          end in
        Some {| hostname := host;
                pathname := if String.eqb path "" then "/" else path;
                searchParams := parse_query query |}
  end.

(** ** Concrete data to run the code on *)

Module Demo.

Definition snippetOf (t : string) (channel : string) : Snippet :=
  {| title := Some t; description := Some ""; tags := None;
     channelId := Some channel; publishedAt := Some "2024-01-01T00:00:00Z" |}.

(** An item with [snippet] and [contentDetails], as [videos.list] returns. *)
Definition video (vid d t : string) : VideoItem :=
  {| id := Some (IdString vid);
     snippet := Some (snippetOf t "UC-demo");
     contentDetails := Some {| duration := Some d; dimension := None |};
     statistics := None |}.

(** An item as [search.list] returns it with [part: 'snippet']. *)
Definition searchHit (vid t : string) : VideoItem :=
  {| id := Some (IdObject "youtube#video" vid);
     snippet := Some (snippetOf t "UC-demo");
     contentDetails := None;
     statistics := None |}.

(** Twenty candidates, every second one shorter than three minutes. *)
Definition candidates : list VideoItem :=
  flat_map (fun _ => [video "long" "PT10M" "Talk"; video "clip" "PT45S" "Clip"])
           (seq 0 10).

(** The related videos of the source [pair]. *)
Definition pairItems : list VideoItem :=
  [video "long1" "PT10M" "Talk"; video "clip" "PT45S" "Clip";
   video "long2" "PT1H2M3S" "Film"].

(** The world is the number of API calls made so far. *)
Definition videos_list (p : VideosList.params) (calls : nat) : nat * Settled :=
  (S calls,
   if String.eqb (VideosList.id p) "gone"
   then Rejected (Some 404) "Video not found"
   else if String.eqb (VideosList.id p) "none"
   then Resolved {| data_items := Some []; data_nextPageToken := None |}
   else Resolved {| data_items := Some [video (VideosList.id p) "PT12M" "Source"];
                    data_nextPageToken := None |}).

Definition search_list (p : SearchList.params) (calls : nat) : nat * Settled :=
  (S calls,
   match SearchList.relatedToVideoId p with
   | RelatedId (IdString "quota") => Rejected (Some 403) "quotaExceeded"
   | RelatedId (IdString "pair") =>
       Resolved {| data_items := Some pairItems; data_nextPageToken := Some "CAMQAA" |}
   | RelatedId (IdString "hits") =>
       Resolved {| data_items := Some [searchHit "a1" "First"; searchHit "b2" "Second"];
                   data_nextPageToken := Some "CAIQAA" |}
   | _ => Resolved {| data_items := Some candidates;
                      data_nextPageToken := Some "CDIQAA" |}
   end).

(** The page for the source [pair] and the page token [tok]. *)
Definition pairPage : ResultPage :=
  {| items := [video "long1" "PT10M" "Talk"; video "long2" "PT1H2M3S" "Film"];
     nextPageToken := Some "tok" |}.

(** [Date] on the time stamps used below. *)
Definition Date_parse (t : string) : JS.number :=
  if String.eqb t "2024-01-01T00:00:00Z" then JS.Num 1704067200000
  else if String.eqb t "2024-01-02T00:00:00Z" then JS.Num 1704153600000
  else if String.eqb t "2024-01-03T00:00:00Z" then JS.Num 1704240000000
  else JS.NaN.

Definition entry (url t : string) : HistoryEntry :=
  {| titleUrl := Some url; time := Some t |}.

Definition history : list HistoryEntry :=
  [ entry "https://www.youtube.com/watch?v=old" "2024-01-01T00:00:00Z";
    entry "https://music.youtube.com/playlist?list=PL1" "2024-01-03T00:00:00Z";
    entry "https://www.youtube.com/watch?v=new" "2024-01-03T00:00:00Z";
    entry "https://www.youtube.com/watch?v=mid" "2024-01-02T00:00:00Z";
    entry "https://www.youtube.com/watch?v=old" "2024-01-02T00:00:00Z" ].

(** Twelve watch entries with twelve different ids. *)
Definition longHistory : list HistoryEntry :=
  map (fun v => entry ("https://www.youtube.com/watch?v=" +:+ v) "2024-01-02T00:00:00Z")
      ["v01"; "v02"; "v03"; "v04"; "v05"; "v06"; "v07"; "v08"; "v09"; "v10"; "v11"; "v12"].

Definition half : nat -> Q := fun _ => (1 # 2)%Q.

End Demo.

(** ** Notions used to state the properties *)

(** [needle] occurs in [s]. *)
Definition occurs_in (needle s : string) : Prop :=
  exists before after, s = before +:+ needle +:+ after.

(** A landscape video of 400 seconds without any marker, and the same with
    [#Shorts] in its title. *)
Definition landscape400 (t : string) : VideoItem :=
  {| id := Some (IdString "dQw4w9WgXcQ");
     snippet := Some {| title := Some t; description := Some "A talk";
                        tags := Some ["talk"; "music"]; channelId := Some "UC1";
                        publishedAt := None |};
     contentDetails := Some {| duration := Some "PT6M40S";
                               dimension := Some {| height := Some 1080;
                                                    width := Some 1920 |} |};
     statistics := None |}.

(** A landscape video of 400 seconds with the given title, description and
    tags. *)
Definition landscape (t d : string) (labels : list string) : VideoItem :=
  {| id := Some (IdString "dQw4w9WgXcQ");
     snippet := Some {| title := Some t; description := Some d;
                        tags := Some labels; channelId := Some "UC1";
                        publishedAt := None |};
     contentDetails := Some {| duration := Some "PT6M40S";
                               dimension := Some {| height := Some 1080;
                                                    width := Some 1920 |} |};
     statistics := None |}.

(** ** Orders on watch-history entries *)

(** Both entries have a valid date, and [a] is not older than [b]. *)
Definition newest_first (Date_parse : string -> JS.number) (a b : HistoryEntry) : Prop :=
  exists ta tb,
    Date_of Date_parse a = JS.Num ta /\ Date_of Date_parse b = JS.Num tb /\ tb <= ta.

Definition valid_date (Date_parse : string -> JS.number) (e : HistoryEntry) : Prop :=
  exists t, Date_of Date_parse e = JS.Num t.

(** [id] is the non-empty video id extracted from the URL of [e]. *)
Definition id_of_entry (new_URL : string -> option URL) (id : string) (e : HistoryEntry)
  : Prop :=
  id <> "" /\ exists u, titleUrl e = Some u /\ extractVideoId new_URL u = Some id.

(** A number that is neither [NaN] nor negative. *)
Definition nonnegative (x : JS.number) : Prop :=
  x = JS.Infinity \/ exists n, x = JS.Num n /\ 0 <= n.

(** ** Duration strings of the expected shape *)

(** A non-empty run of decimal digits. *)
Fixpoint digits_only (s : string) : bool :=
  match s with
  | EmptyString => false
  | String c EmptyString => JS.isDigit c
  | String c s' => JS.isDigit c && digits_only s'
  end.

(** An optional component: its digits followed by its unit letter. *)
Definition component (digits : option string) (unit : ascii) : string :=
  match digits with
  | Some d => d +:+ String unit ""
  | None => ""
  end.

Definition component_ok (digits : option string) : bool :=
  match digits with
  | Some d => digits_only d
  | None => true
  end.

(** The integer a component denotes; an absent component counts for 0. *)
Definition component_value (digits : option string) : Z :=
  match digits with
  | Some d => JS.decimal_value 0 d
  | None => 0
  end.

(** [PT], then the hour, minute and second components that are present. *)
Definition duration_string (h m s : option string) : string :=
  "PT" +:+ component h "H" +:+ component m "M" +:+ component s "S".

(** A natural number written in decimal. *)
Definition decimal (n : nat) : string := NilEmpty.string_of_uint (Nat.to_uint n).

(** The duration string of [h] hours, [m] minutes and [s] seconds, each
    given or left out. *)
Definition duration_of (h m s : option nat) : string :=
  duration_string (option_map decimal h) (option_map decimal m) (option_map decimal s).

Definition amount (n : option nat) : Z := Z.of_nat (default O n).

(** ** The upload handler of [youtubeController.js] *)

(** A parsed JSON value. *)
#[warnings="-register-all"]
Inductive JSON : Type :=
  | JNull
  | JBool (b : bool)
  | JNumber (literal : string)
  | JString (s : string)
  | JArray (elements : list JSON)
  | JObject (fields : list (string * JSON)).

(** [object.key] on a parsed object: of two members with the same name the
    later one wins. *)
Fixpoint JSON_get (key : string) (fields : list (string * JSON)) : option JSON :=
  match fields with
  | [] => None
  | (k, v) :: rest =>
      match JSON_get key rest with
      | Some v' => Some v'
      | None => if String.eqb k key then Some v else None
      end
  end.

(** The predicate of lines 114-121: an object whose [titleUrl] and [time]
    are non-empty strings; what the service reads of such an entry. *)
Definition validEntry (entry : JSON) : option HistoryEntry :=
  match entry with
  | JObject fields =>
      match JSON_get "titleUrl" fields, JSON_get "time" fields with
      | Some (JString (String a u)), Some (JString (String b t)) =>
          Some {| titleUrl := Some (String a u); time := Some (String b t) |}
      | _, _ => None
      end
  | _ => None
  end.

(** A quotient of two counts: 0 / 0 is [NaN], n / 0 is [Infinity]. *)
Inductive Ratio : Type :=
  | RatioNaN
  | RatioInfinity
  | RatioValue (q : Q).

(** The answer of the upload handler. *)
Inductive UploadBody : Type :=
  | UploadError (error : string) (details : option string)
  | UploadRecommendations (recommendations : list VideoItem)
      (nextPageToken : option string) (total processedEntries uniqueChannels : nat)
      (videosPerChannel : Ratio).

Record UploadResponse : Type := {
  upload_status : Z;
  upload_body : UploadBody
}.

(** [Math.round(total / size * 10) / 10] *)
Definition videosPerChannel_upload (total size : nat) : Ratio :=
  match size, total with
  | O, O => RatioNaN
  | O, S _ => RatioInfinity
  | S _, _ => RatioValue (videosPerChannel_of total size)
  end.

Section Upload.
Variable World : Type.
Variable new_URL : string -> option URL.
Variable videos_list : VideosList.params -> World -> World * Settled.
Variable search_list : SearchList.params -> World -> World * Settled.
Variable Date_parse : string -> JS.number.
(** [JSON.parse(text)]; [None] when it throws a [SyntaxError]. *)
Variable JSON_parse : string -> option JSON.
Variable YOUTUBE_API_KEY : option string.
Variable NODE_ENV : option string.

(** The [catch] block of lines 154-173: the class of the thrown value is
    tested before its [code]. *)
Definition uploadFailure (e : error) : UploadResponse :=
  if instanceof_SyntaxError e
  then {| upload_status := 400;
          upload_body :=
            UploadError
              "Invalid file format. Please upload a valid JSON file from Google Takeout."
              None |}
  else if bool_decide (error_code e = Some 403)
  then {| upload_status := 403;
          upload_body := UploadError "YouTube API quota exceeded. Please try again later."
                           None |}
  else {| upload_status := 500;
          upload_body := UploadError "Failed to process watch history"
                           (details_of NODE_ENV e) |}.

(** [handleFileUpload(req, res)]; [file] is [req.file.buffer.toString()], or
    [None] without [req.file]. *)
Definition handleFileUpload (file : option string) : World -> World * UploadResponse :=
  fun w =>
    match file with
    | None =>
        (w, {| upload_status := 400; upload_body := UploadError "No file uploaded" None |})
    | Some text =>
        match JSON_parse text with
        | None =>
            (w, {| upload_status := 400;
                   upload_body :=
                     UploadError
                       "Invalid JSON file format. Please upload a valid Google Takeout watch-history.json file."
                       None |})
        | Some (JArray watchHistory) =>
            let validEntries := omap validEntry watchHistory in
            match validEntries with
            | [] =>
                (w, {| upload_status := 400;
                       upload_body :=
                         UploadError "No valid watch history entries found in the file."
                           None |})
            | _ =>
                match processTakeoutFile new_URL videos_list search_list Date_parse
                        validEntries YOUTUBE_API_KEY w with
                | (w', Ok result) =>
                    match channelKeys (items result) [] with
                    | Ok channelCounts =>
                        (w', {| upload_status := 200;
                                upload_body :=
                                  UploadRecommendations (items result)
                                    (nextPageToken result) (length (items result))
                                    (length validEntries) (length channelCounts)
                                    (videosPerChannel_upload (length (items result))
                                       (length channelCounts)) |})
                    | Throw e => (w', uploadFailure e)
                    end
                | (w', Throw e) => (w', uploadFailure e)
                end
            end
        | Some _ =>
            (w, {| upload_status := 400;
                   upload_body :=
                     UploadError
                       "Invalid watch history format. The file should contain an array of watch history entries."
                       None |})
        end
    end.

End Upload.

Arguments handleFileUpload {World} new_URL videos_list search_list Date_parse JSON_parse
  YOUTUBE_API_KEY NODE_ENV file w.

(** ** Further notions used to state the properties *)

(** The URL yields a video id the loop can use. *)
Definition usable (new_URL : string -> option URL) (url : string) : bool :=
  truthy_string (extractVideoId new_URL url).

(** The id the [forEach] of line 153 adds for an entry, if any. *)
Definition usable_id (new_URL : string -> option URL) (entry : HistoryEntry)
  : option string :=
  match extractVideoId new_URL (default "" (titleUrl entry)) with
  | Some (String c s) => Some (String c s)
  | _ => None
  end.

(** A list without its repetitions, every element at its first place. *)
Definition first_occurrences (l : list string) : list string :=
  reverse (remove_dups (reverse l)).

(** [video.snippet.channelId] *)
Definition channel_of (video : VideoItem) : option string :=
  match snippet video with
  | Some sn => channelId sn
  | None => None
  end.

(** The status a thrown value gets in [handleUrlInput]. *)
Definition url_error_status (e : error) : Z :=
  if bool_decide (error_code e = Some 403) then 403
  else if bool_decide (error_code e = Some 404) then 404
  else 500.

(** Concrete uploads. *)
Module DemoUpload.

(** A history listed from the most recent, with two entries of one day. *)
Definition sortedHistory : list HistoryEntry :=
  [ Demo.entry "https://www.youtube.com/watch?v=new" "2024-01-03T00:00:00Z";
    Demo.entry "https://www.youtube.com/watch?v=mid" "2024-01-02T00:00:00Z";
    Demo.entry "https://www.youtube.com/playlist?list=PL1" "2024-01-02T00:00:00Z";
    Demo.entry "https://www.youtube.com/watch?v=old" "2024-01-02T00:00:00Z";
    Demo.entry "https://www.youtube.com/watch?v=new" "2024-01-01T00:00:00Z" ].

(** A history without any watch page. *)
Definition playlists : list HistoryEntry :=
  [ Demo.entry "https://music.youtube.com/playlist?list=PL1" "2024-01-03T00:00:00Z";
    Demo.entry "https://www.youtube.com/channel/UC1" "2024-01-02T00:00:00Z" ].

(** A search that returns a talk and a stream of more than a day. *)
Definition streamItems : list VideoItem :=
  [Demo.video "talk" "PT10M" "Talk"; Demo.video "stream" "P1DT2H" "Stream"].

Definition search_list (p : SearchList.params) (calls : nat) : nat * Settled :=
  (S calls, Resolved {| data_items := Some streamItems; data_nextPageToken := None |}).

(** A search whose answer the client cannot parse. *)
Definition garbled_search (p : SearchList.params) (calls : nat) : nat * Settled :=
  (S calls, RejectedSyntaxError None "Unexpected token < in JSON at position 0").

Definition q : string := String (ascii_of_nat 34) "".

(** The text of a file with one entry. *)
Definition file_of (url : string) : string :=
  "[{" +:+ q +:+ "titleUrl" +:+ q +:+ ":" +:+ q +:+ url +:+ q +:+ ","
    +:+ q +:+ "time" +:+ q +:+ ":" +:+ q +:+ "2024-01-02T00:00:00Z" +:+ q +:+ "}]".

Definition parsed_file (url : string) : JSON :=
  JArray [JObject [("titleUrl", JString url); ("time", JString "2024-01-02T00:00:00Z")]].

Definition hitsUrl : string := "https://www.youtube.com/watch?v=hits".
Definition quotaUrl : string := "https://www.youtube.com/watch?v=quota".

(** [JSON.parse] on the texts used below. *)
Definition JSON_parse (t : string) : option JSON :=
  if String.eqb t (file_of hitsUrl) then Some (parsed_file hitsUrl)
  else if String.eqb t (file_of quotaUrl) then Some (parsed_file quotaUrl)
  else if String.eqb t "[]" then Some (JArray [])
  else if String.eqb t "{}" then Some (JObject [])
  else None.

End DemoUpload.

(* ================================================================== *)
(** * Properties *)
(* ================================================================== *)

(** ** Strings and [parseInt] *)

#[local] Arguments String.append !_ _ / : simpl nomatch.

Lemma append_assoc (a b c : string) : (a +:+ b) +:+ c = a +:+ (b +:+ c).
Proof. induction a as [|x a IH]; simpl; congruence. Qed.

Lemma isDigit_range (c : ascii) :
  JS.isDigit c = true -> 0 <= JS.digit c <= 9.
Proof.
  unfold JS.isDigit, JS.digit. intros H.
  apply andb_true_iff in H as [H1 H2]. lia.
Qed.

Lemma digits_only_cons (c : ascii) (s : string) :
  digits_only (String c s) = true ->
  JS.isDigit c = true /\ (s = "" \/ digits_only s = true).
Proof.
  simpl. destruct s as [|c' s'].
  - intros H. split; [exact H | now left].
  - intros H. apply andb_true_iff in H as [H1 H2]. split; [exact H1 | now right].
Qed.

Lemma decimal_value_nonneg (s : string) :
  forall acc, 0 <= acc -> digits_only s = true \/ s = "" -> 0 <= JS.decimal_value acc s.
Proof.
  induction s as [|c s IH]; intros acc Hacc Hs; simpl; [lia|].
  destruct Hs as [Hs | Hs]; [|discriminate].
  apply digits_only_cons in Hs as [Hc Hs].
  apply isDigit_range in Hc.
  apply IH; [lia | tauto].
Qed.

(** Reading the digits of [d] in front of a text that does not start with
    a digit. *)
Lemma span_digits_run (d r : string) :
  digits_only d = true \/ d = "" ->
  match r with
  | EmptyString => True
  | String c _ => JS.isDigit c = false
  end ->
  JS.span_digits (d +:+ r) = (d, r).
Proof.
  intros Hd Hr. induction d as [|c d IH]; cbn [String.append JS.span_digits].
  - destruct r as [|c r]; [reflexivity |].
    cbn [JS.span_digits]. now rewrite Hr.
  - destruct Hd as [Hd | Hd]; [|discriminate].
    apply digits_only_cons in Hd as [Hc Hd].
    rewrite Hc. rewrite IH by tauto. reflexivity.
Qed.

Lemma digits_only_nonempty (d : string) :
  digits_only d = true -> exists c d', d = String c d' /\ JS.isDigit c = true.
Proof.
  destruct d as [|c d']; [discriminate|].
  intros H. apply digits_only_cons in H as [H _]. eauto.
Qed.

Ltac ascii_cases c :=
  destruct c as [[] [] [] [] [] [] [] []]; try discriminate; try reflexivity.

Lemma digit_not_white (c : ascii) : JS.isDigit c = true -> JS.isWhite c = false.
Proof. ascii_cases c. Qed.

Lemma digit_not_sign (c : ascii) :
  JS.isDigit c = true -> c <> "-"%char /\ c <> "+"%char.
Proof. intros H; split; intros ->; discriminate. Qed.

Lemma digit_not_x (c : ascii) :
  JS.isDigit c = true -> Ascii.eqb c "x" = false /\ Ascii.eqb c "X" = false.
Proof. intros H. split; ascii_cases c. Qed.

Lemma prefix2_false (a b c : ascii) (s : string) :
  a <> c \/ match s with
            | EmptyString => True
            | String c' _ => b <> c'
            end ->
  String.prefix (String a (String b "")) (String c s) = false.
Proof.
  intros H. cbn [String.prefix]. destruct (ascii_dec a c) as [->|]; [|reflexivity].
  destruct s as [|c' s']; [reflexivity|].
  cbn [String.prefix].
  destruct (ascii_dec b c') as [->|]; [|reflexivity].
  destruct H as [H|H]; congruence.
Qed.

(** *** Rounding to a double *)

Lemma round_magnitude_small (n : Z) : n < 2 ^ 53 -> JS.round_magnitude n = n.
Proof.
  intros H. unfold JS.round_magnitude.
  destruct (Z.ltb_spec n (2 ^ 53)); [reflexivity | lia].
Qed.

(** An integer of at most 53 bits is a double. *)
Lemma round_exact (z : Z) : Z.abs z <= 2 ^ 53 -> JS.round z = JS.Num z.
Proof.
  intros H. destruct (Z.eq_dec (Z.abs z) (2 ^ 53)) as [Heq | Hne].
  - assert (Hz : z = 2 ^ 53 \/ z = - 2 ^ 53) by lia.
    destruct Hz as [-> | ->]; vm_compute; reflexivity.
  - unfold JS.round. rewrite round_magnitude_small by lia.
    destruct (Z.leb_spec (2 ^ 1024) (Z.abs z)) as [Hbig | _].
    + assert (2 ^ 53 < 2 ^ 1024) by (apply Z.pow_lt_mono_r; lia). lia.
    + f_equal. lia.
Qed.

Lemma round_magnitude_pos (n : Z) : 0 < n -> 0 < JS.round_magnitude n.
Proof.
  intros Hn. unfold JS.round_magnitude.
  destruct (Z.ltb_spec n (2 ^ 53)) as [_ | Hbig]; [exact Hn|].
  assert (Hlog : 53 <= Z.log2 n) by (apply Z.log2_le_pow2; lia).
  set (e := Z.log2 n - 52).
  assert (He : 0 < e) by (unfold e; lia).
  assert (Hq : 0 < Z.shiftr n e).
  { rewrite Z.shiftr_div_pow2 by lia.
    apply Z.div_str_pos. split; [lia|].
    apply Z.le_trans with (2 ^ Z.log2 n).
    - apply Z.pow_le_mono_r; unfold e; lia.
    - apply Z.log2_spec. lia. }
  cbv zeta.
  match goal with
  | |- 0 < Z.shiftl ?q e =>
      assert (Hq' : 0 < q) by (destruct (_ || _); lia);
      rewrite Z.shiftl_mul_pow2 by lia;
      apply Z.mul_pos_pos; [exact Hq' | apply Z.pow_pos_nonneg; lia]
  end.
Qed.

(** Rounding keeps the sign. *)
Lemma round_sign (z : Z) : JS.signum (JS.round z) = Z.sgn z.
Proof.
  unfold JS.round.
  destruct (Z.leb_spec (2 ^ 1024) (JS.round_magnitude (Z.abs z))) as [Hbig | _].
  - destruct (Z.ltb_spec z 0); cbn [JS.signum]; [lia|].
    assert (z <> 0); [|lia].
    intros ->. vm_compute in Hbig. now apply Hbig.
  - cbn [JS.signum]. destruct (Z.eq_dec z 0) as [-> | Hne]; [reflexivity|].
    pose proof (round_magnitude_pos (Z.abs z)) as Hpos.
    rewrite Z.sgn_mul. rewrite (Z.sgn_pos (JS.round_magnitude _)) by lia.
    rewrite Z.sgn_sgn. lia.
Qed.

Lemma gt_zero_round (z : Z) : JS.gt (JS.round z) (JS.Num 0) = (0 <? z).
Proof.
  pose proof (round_sign z) as H. unfold JS.gt.
  destruct (JS.round z) as [|n| |]; cbn [JS.lt JS.signum] in *.
  - destruct (Z.ltb_spec 0 z); [lia | reflexivity].
  - destruct (Z.ltb_spec 0 n), (Z.ltb_spec 0 z); try reflexivity; lia.
  - destruct (Z.ltb_spec 0 z); [reflexivity | lia].
  - destruct (Z.ltb_spec 0 z); [lia | reflexivity].
Qed.

Lemma round_nonnegative (z : Z) : 0 <= z -> nonnegative (JS.round z).
Proof.
  intros Hz. pose proof (round_sign z) as H. unfold nonnegative.
  destruct (JS.round z) as [|n| |] eqn:Hr; cbn [JS.signum] in H.
  - unfold JS.round in Hr.
    destruct (2 ^ 1024 <=? _), (z <? 0); discriminate.
  - right. exists n. split; [reflexivity | lia].
  - now left.
  - lia.
Qed.

(** The first character of digits followed by a unit letter. *)
Lemma digits_then_unit_head (d : string) (X : ascii) :
  digits_only d = true \/ d = "" ->
  exists y t, d +:+ String X "" = String y t /\ (y = X \/ JS.isDigit y = true).
Proof.
  intros [Hd | ->].
  - destruct d as [|c d']; [discriminate|].
    apply digits_only_cons in Hd as [Hc _]. simpl. eauto.
  - simpl. eauto.
Qed.

(** [parseInt] of a captured group: its digits, whatever the unit letter. *)
Lemma parseInt_group (d : string) (X : ascii) :
  digits_only d = true ->
  JS.isDigit X = false ->
  X <> "x"%char -> X <> "X"%char ->
  JS.parseInt (d +:+ String X "") = JS.round (JS.decimal_value 0 d).
Proof.
  intros Hd HX Hx1 Hx2.
  destruct (digits_only_nonempty d Hd) as (c & d' & -> & Hc).
  unfold JS.parseInt.
  change (String c d' +:+ String X "") with (String c (d' +:+ String X "")).
  cbn [JS.trimStart]. rewrite (digit_not_white c Hc).
  destruct (digit_not_sign c Hc) as [Hm Hp].
  assert (Hsign :
    match String c (d' +:+ String X "") with
    | String "-" r => (-1, r)
    | String "+" r => (1, r)
    | _ => (1, String c (d' +:+ String X ""))
    end = (1, String c (d' +:+ String X ""))).
  { revert Hm Hp. generalize (d' +:+ String X ""). clear.
    intros s Hm Hp. ascii_cases c; congruence. }
  rewrite Hsign.
  assert (Htail : d' = "" \/ digits_only d' = true).
  { apply digits_only_cons in Hd. tauto. }
  destruct (digits_then_unit_head d' X) as (y & t & Hy & Hy'); [tauto|].
  assert (Hnot : forall b, b = "x"%char \/ b = "X"%char -> b <> y).
  { intros b Hb ->. destruct Hy' as [-> | Hy'].
    - destruct Hb; congruence.
    - destruct Hb as [-> | ->]; discriminate. }
  rewrite Hy.
  rewrite !prefix2_false by (right; apply Hnot; tauto).
  cbn [orb]. rewrite <- Hy.
  change (String c (d' +:+ String X "")) with (String c d' +:+ String X "").
  rewrite span_digits_run; [| now left | exact HX].
  rewrite Z.mul_1_l. reflexivity.
Qed.

(** The digits of a number denote that number. *)
Lemma decimal_value_uint (u : Decimal.uint) :
  forall acc : nat,
    JS.decimal_value (Z.of_nat acc) (NilEmpty.string_of_uint u)
    = Z.of_nat (Nat.of_uint_acc u acc).
Proof.
  induction u; intros acc; cbn [NilEmpty.string_of_uint JS.decimal_value Nat.of_uint_acc];
    try reflexivity;
    rewrite <- IHu; f_equal; rewrite Nat.tail_mul_spec;
    match goal with
    | |- context [JS.digit ?c] =>
        let v := eval compute in (JS.digit c) in change (JS.digit c) with v
    end; lia.
Qed.

Lemma digits_only_uint (u : Decimal.uint) :
  u <> Decimal.Nil -> digits_only (NilEmpty.string_of_uint u) = true.
Proof.
  induction u; intros H; try congruence;
    cbn [NilEmpty.string_of_uint]; (destruct u; [reflexivity | ..]);
    try (change (digits_only (String ?c (String ?c' ?s)))
           with (JS.isDigit c && digits_only (String c' s)));
    try (apply andb_true_intro; split; [reflexivity | apply IHu; discriminate]).
Qed.

Lemma decimal_digits (n : nat) : digits_only (decimal n) = true.
Proof.
  apply digits_only_uint.
  rewrite <- (Unsigned.of_to n) at 1. rewrite Unsigned.to_of.
  apply unorm_nonnil.
Qed.

Lemma decimal_value_decimal (n : nat) : JS.decimal_value 0 (decimal n) = Z.of_nat n.
Proof.
  unfold decimal. rewrite (decimal_value_uint _ O).
  f_equal. apply Unsigned.of_to.
Qed.

(** ** The three optional groups of the pattern *)

Lemma optional_group_present (d : string) (X : ascii) (r : string) :
  digits_only d = true ->
  JS.isDigit X = false ->
  optional_group X (d +:+ String X r) = (Some (d +:+ String X ""), r).
Proof.
  intros Hd HX. unfold optional_group.
  rewrite span_digits_run; [| now left | exact HX].
  destruct (digits_only_nonempty d Hd) as (c & d' & -> & _).
  rewrite Ascii.eqb_refl. reflexivity.
Qed.

(** The group does not take part when the digits at the head, if any, are
    followed by another letter or by nothing. *)
Lemma optional_group_absent (d : string) (X : ascii) (r : string) :
  digits_only d = true \/ d = "" ->
  match r with
  | EmptyString => True
  | String c _ => JS.isDigit c = false /\ c <> X
  end ->
  optional_group X (d +:+ r) = (None, d +:+ r).
Proof.
  intros Hd Hr. unfold optional_group.
  rewrite span_digits_run; [| exact Hd | destruct r; tauto].
  destruct d as [|c d']; [reflexivity|].
  destruct r as [|c' r']; [reflexivity|].
  destruct Hr as [_ Hne].
  destruct (Ascii.eqb_spec c' X); [congruence | reflexivity].
Qed.

(** What follows a component in a duration string: the later components. *)
Lemma later_components_head (X : ascii) (m s : option string) (Y Z : ascii) :
  component_ok m = true -> component_ok s = true ->
  JS.isDigit Y = false -> JS.isDigit Z = false -> Y <> X -> Z <> X ->
  exists d r, component m Y +:+ component s Z = d +:+ r
    /\ (digits_only d = true \/ d = "")
    /\ match r with
       | EmptyString => True
       | String c _ => JS.isDigit c = false /\ c <> X
       end.
Proof.
  intros Hm Hs HY HZ HYX HZX.
  destruct m as [dm|]; [|destruct s as [ds|]].
  - exists dm, (String Y (component s Z)). repeat split; auto.
    simpl. now rewrite append_assoc.
  - exists ds, (String Z ""). repeat split; auto.
  - exists "", "". repeat split; auto.
Qed.

Lemma optional_group_component (o : option string) (X : ascii) (rest : string) :
  component_ok o = true ->
  JS.isDigit X = false ->
  (exists d r, rest = d +:+ r
     /\ (digits_only d = true \/ d = "")
     /\ match r with
        | EmptyString => True
        | String c _ => JS.isDigit c = false /\ c <> X
        end) ->
  optional_group X (component o X +:+ rest)
  = (option_map (fun d => d +:+ String X "") o, rest).
Proof.
  intros Ho HX (d & r & -> & Hd & Hr).
  destruct o as [dh|]; simpl component; simpl option_map.
  - rewrite append_assoc. now apply optional_group_present.
  - change ("" +:+ (d +:+ r)) with (d +:+ r). now apply optional_group_absent.
Qed.

Lemma after_PT_prefix (rest : string) : after_PT ("PT" +:+ rest) = Some rest.
Proof. destruct rest; reflexivity. Qed.

Lemma duration_match_components (h m s : option string) :
  component_ok h = true -> component_ok m = true -> component_ok s = true ->
  duration_match (duration_string h m s)
  = Some (option_map (fun d => d +:+ "H") h,
          option_map (fun d => d +:+ "M") m,
          option_map (fun d => d +:+ "S") s).
Proof.
  intros Hh Hm Hs. unfold duration_match, duration_string.
  rewrite after_PT_prefix.
  rewrite (optional_group_component h "H"); [| assumption | reflexivity |].
  2:{ apply later_components_head; auto; discriminate. }
  rewrite (optional_group_component m "M"); [| assumption | reflexivity |].
  2:{ destruct s as [ds|].
      - exists ds, "S". repeat split; auto; discriminate.
      - exists "", "". repeat split; auto. }
  replace (component s "S") with (component s "S" +:+ "").
  2:{ destruct s; simpl; [|reflexivity]. now rewrite append_assoc. }
  rewrite (optional_group_component s "S"); [reflexivity | assumption | reflexivity |].
  exists "", "". repeat split; auto.
Qed.

(** The arithmetic of [parseDuration] is exact as long as the total fits in
    53 bits. *)
Ltac exact_doubles :=
  repeat (cbn [JS.add JS.mul];
          rewrite round_exact by (change (2 ^ 53) with 9007199254740992 in *; lia)).

Lemma component_value_nonneg (o : option string) :
  component_ok o = true -> 0 <= component_value o.
Proof.
  destruct o as [d|]; intros Ho; simpl; [|lia].
  apply decimal_value_nonneg; [lia | now left].
Qed.

(** C3, amended. For a duration string made of [PT] and optional hour,
    minute and second components, each a run of decimal digits and its unit
    letter, whose total 3600 * hours + 60 * minutes + seconds is at most
    2^53, [parseDuration] returns that total, which is not negative; in
    particular for [h], [m] and [s] written in decimal; [PT1H2M3S] gives
    3723, [PT45S] gives 45, [PT10M] gives 600, and [PT0S] and the bare [PT]
    give 0. *)
Theorem parseDuration_total_seconds :
  (forall h m s : option string,
      component_ok h = true -> component_ok m = true -> component_ok s = true ->
      3600 * component_value h + 60 * component_value m + component_value s <= 2 ^ 53 ->
      parseDuration (Some (duration_string h m s))
      = Ok (JS.Num (3600 * component_value h + 60 * component_value m
                    + component_value s))
      /\ 0 <= 3600 * component_value h + 60 * component_value m + component_value s)
  /\ (forall h m s : option nat,
         3600 * amount h + 60 * amount m + amount s <= 2 ^ 53 ->
         parseDuration (Some (duration_of h m s))
         = Ok (JS.Num (3600 * amount h + 60 * amount m + amount s)))
  /\ parseDuration (Some "PT1H2M3S") = Ok (JS.Num 3723)
  /\ parseDuration (Some "PT45S") = Ok (JS.Num 45)
  /\ parseDuration (Some "PT10M") = Ok (JS.Num 600)
  /\ parseDuration (Some "PT0S") = Ok (JS.Num 0)
  /\ parseDuration (Some "PT") = Ok (JS.Num 0).
Proof.
  assert (Hstrings : forall h m s : option string,
      component_ok h = true -> component_ok m = true -> component_ok s = true ->
      3600 * component_value h + 60 * component_value m + component_value s <= 2 ^ 53 ->
      parseDuration (Some (duration_string h m s))
      = Ok (JS.Num (3600 * component_value h + 60 * component_value m
                    + component_value s))).
  { intros h m s Hh Hm Hs Hbound.
    pose proof (component_value_nonneg h Hh).
    pose proof (component_value_nonneg m Hm).
    pose proof (component_value_nonneg s Hs).
    unfold parseDuration. rewrite duration_match_components by assumption.
    destruct h as [dh|], m as [dm|], s as [ds|];
      cbn [option_map component_value] in *;
      rewrite ?parseInt_group by (assumption || discriminate || reflexivity);
      exact_doubles; do 2 f_equal; lia. }
  split; [| split; [| repeat split; reflexivity]].
  2:{ intros h m s Hbound. unfold duration_of.
      assert (Hok : forall n : option nat, component_ok (option_map decimal n) = true)
        by (intros [n|]; [apply decimal_digits | reflexivity]).
      assert (Hval : forall n : option nat,
                 component_value (option_map decimal n) = amount n)
        by (intros [n|]; [apply decimal_value_decimal | reflexivity]).
      rewrite Hstrings; rewrite ?Hval; auto. }
  intros h m s Hh Hm Hs Hbound. split.
  - now apply Hstrings.
  - pose proof (component_value_nonneg h Hh).
    pose proof (component_value_nonneg m Hm).
    pose proof (component_value_nonneg s Hs). lia.
Qed.

(** The theorem at the components 1, 2 and 3. *)
Lemma parseDuration_total_seconds_witness :
  parseDuration (Some (duration_string (Some "1") (Some "2") (Some "3")))
  = Ok (JS.Num (3600 * 1 + 60 * 2 + 3)).
Proof.
  refine (proj1 (proj1 parseDuration_total_seconds (Some "1") (Some "2") (Some "3")
                   eq_refl eq_refl eq_refl _)).
  vm_compute. discriminate.
Defined.

(** C3 as stated fails above 2^53: the seconds component 9007199254740993
    is a run of digits, and [parseDuration] returns the double next to it,
    9007199254740992, which is not the total.  So do the product and the
    sum: 2501999792983609 hours and 1 second come out as
    9007199254740992000. *)
Lemma parseDuration_total_counterexample :
  component_ok (Some "9007199254740993") = true
  /\ component_value (Some "9007199254740993") = 9007199254740993
  /\ duration_string None None (Some "9007199254740993") = "PT9007199254740993S"
  /\ parseDuration (Some "PT9007199254740993S") = Ok (JS.Num 9007199254740992)
  /\ parseDuration (Some "PT9007199254740993S")
     <> Ok (JS.Num (3600 * component_value None + 60 * component_value None
                    + component_value (Some "9007199254740993")))
  /\ parseDuration (Some "PT2501999792983609H1S") = Ok (JS.Num 9007199254740992000)
  /\ 3600 * 2501999792983609 + 60 * 0 + 1 = 9007199254740992401.
Proof. repeat split. vm_compute. discriminate. Qed.

(** ** The short-form filter *)

Lemma prefix_iff (p s : string) :
  String.prefix p s = true <-> exists after, s = p +:+ after.
Proof.
  revert s. induction p as [|a p IH]; intros s.
  - split; [intros _; now exists s | intros _; now destruct s].
  - destruct s as [|b s'].
    + split; [discriminate | intros [after H]; discriminate].
    + cbn [String.prefix]. destruct (ascii_dec a b) as [->|Hne].
      * rewrite IH. split; intros [after H]; exists after; simpl in *; congruence.
      * split; [discriminate | intros [after H]; simpl in H; congruence].
Qed.

Lemma includes_iff (needle s : string) :
  JS.includes needle s = true <-> occurs_in needle s.
Proof.
  unfold occurs_in. split.
  - induction s as [|c s IH]; cbn [JS.includes]; intros H.
    + rewrite orb_false_r in H. apply prefix_iff in H as [after H].
      now exists "", after.
    + apply orb_true_iff in H as [H | H].
      * apply prefix_iff in H as [after H]. now exists "", after.
      * destruct (IH H) as (before & after & ->). now exists (String c before), after.
  - intros (before & after & ->).
    induction before as [|c before IH].
    + change ("" +:+ needle +:+ after) with (needle +:+ after).
      assert (Hp : String.prefix needle (needle +:+ after) = true)
        by (apply prefix_iff; now exists after).
      destruct (needle +:+ after); cbn [JS.includes]; now rewrite Hp.
    + change (String c before +:+ needle +:+ after)
        with (String c (before +:+ needle +:+ after)).
      cbn [JS.includes]. rewrite IH. apply orb_true_r.
Qed.

Lemma hasShortsKeyword_iff (sn : Snippet) :
  hasShortsKeyword sn = true
  <-> exists keyword, In keyword shortsKeywords /\ occurs_in keyword (textContent sn).
Proof.
  unfold hasShortsKeyword. rewrite existsb_exists.
  split; intros (k & Hk & H); exists k; (split; [exact Hk | now apply includes_iff]).
Qed.

Lemma idIsShortsUrl_iff (video : VideoItem) :
  idIsShortsUrl video = true
  <-> exists s, id video = Some (IdString s) /\ occurs_in "/shorts/" s.
Proof.
  unfold idIsShortsUrl. destruct (id video) as [[s | k v] |].
  - rewrite includes_iff. split; [eauto | intros (s' & [= <-] & H); exact H].
  - split; [discriminate | intros (s' & [=] & _)].
  - split; [discriminate | intros (s' & [=] & _)].
Qed.

Lemma isVertical_iff (cd : ContentDetails) :
  isVertical cd = true
  <-> exists dim h w, dimension cd = Some dim
        /\ height dim = Some h /\ width dim = Some w /\ h > w.
Proof.
  unfold isVertical. destruct (dimension cd) as [[[h|] [w|]]|]; simpl.
  - rewrite Z.ltb_lt. split.
    + intros H. exists {| height := Some h; width := Some w |}, h, w.
      repeat split; lia.
    + intros (dim & h' & w' & [= <-] & [= <-] & [= <-] & H). lia.
  - split; [discriminate | intros (dim & h' & w' & [= <-] & _ & [=] & _)].
  - split; [discriminate | intros (dim & h' & w' & [= <-] & [=] & _)].
  - split; [discriminate | intros (dim & h' & w' & [= <-] & [=] & _)].
  - split; [discriminate | intros (dim & h' & w' & [=] & _)].
Qed.

(** *** The text the keywords are searched in *)

Lemma toLowerCase_app (a b : string) :
  JS.toLowerCase (a +:+ b) = JS.toLowerCase a +:+ JS.toLowerCase b.
Proof. induction a as [|c a IH]; cbn [String.append JS.toLowerCase]; congruence. Qed.

Lemma toLowerCase_join (xs : list string) :
  JS.toLowerCase (JS.join " " xs) = JS.join " " (map JS.toLowerCase xs).
Proof.
  induction xs as [|x [|y xs] IH]; [reflexivity | reflexivity |].
  change (JS.join " " (x :: y :: xs)) with (x +:+ String " " (JS.join " " (y :: xs))).
  rewrite toLowerCase_app. cbn [JS.toLowerCase]. rewrite IH. reflexivity.
Qed.

Lemma lower_not_letter (c : ascii) :
  JS.code c < 65 \/ 90 < JS.code c -> JS.lower c = c.
Proof.
  intros H. unfold JS.lower.
  destruct (Z.leb_spec 65 (JS.code c)), (Z.leb_spec (JS.code c) 90);
    cbn [andb]; try reflexivity; lia.
Qed.

(** A needle without a space starts in [a +:+ " " +:+ b] only if it starts
    in [a]. *)
Lemma prefix_app_space (needle : string) :
  JS.includes " " needle = false ->
  forall a b, String.prefix needle (a +:+ String " " b) = String.prefix needle a.
Proof.
  induction needle as [|k needle IH]; intros Hk a b.
  - now destruct a.
  - cbn [JS.includes String.prefix] in Hk.
    apply orb_false_iff in Hk as [Hk Hrest].
    assert (Hne : k <> " "%char).
    { intros ->. destruct needle; discriminate. }
    destruct a as [|c a]; cbn [String.append String.prefix].
    + destruct (ascii_dec k " "); [contradiction | reflexivity].
    + destruct (ascii_dec k c); [apply IH; exact Hrest | reflexivity].
Qed.

Lemma includes_app_space (needle a b : string) :
  needle <> "" ->
  JS.includes " " needle = false ->
  JS.includes needle (a +:+ String " " b) = JS.includes needle a || JS.includes needle b.
Proof.
  intros Hne Hk. induction a as [|c a IH].
  - change ("" +:+ String " " b) with (String " " b).
    cbn [JS.includes].
    rewrite <- (prefix_app_space needle Hk "" b).
    change ("" +:+ String " " b) with (String " " b).
    destruct needle as [|k needle]; [congruence|].
    cbn [String.prefix orb]. now rewrite orb_false_r.
  - change (String c a +:+ String " " b) with (String c (a +:+ String " " b)).
    cbn [JS.includes]. rewrite IH.
    rewrite <- (prefix_app_space needle Hk (String c a) b).
    change (String c a +:+ String " " b) with (String c (a +:+ String " " b)).
    now rewrite orb_assoc.
Qed.

Lemma includes_join (needle : string) (xs : list string) :
  needle <> "" ->
  JS.includes " " needle = false ->
  JS.includes needle (JS.join " " xs) = existsb (JS.includes needle) xs.
Proof.
  intros Hne Hk. induction xs as [|x [|y xs] IH].
  - destruct needle; [congruence | reflexivity].
  - cbn [JS.join existsb]. now rewrite orb_false_r.
  - change (JS.join " " (x :: y :: xs)) with (x +:+ String " " (JS.join " " (y :: xs))).
    rewrite includes_app_space by assumption. now rewrite IH.
Qed.

Lemma existsb_mapped {A B : Type} (f : B -> bool) (g : A -> B) (l : list A) :
  existsb f (map g l) = existsb (fun x => f (g x)) l.
Proof. induction l as [|x l IH]; cbn [map existsb]; congruence. Qed.

(** A keyword is found in the text exactly when it is found in the
    lower-cased title, description or one of the tags. *)
Lemma includes_textContent (needle : string) (sn : Snippet) :
  needle <> "" ->
  JS.includes " " needle = false ->
  JS.includes needle (textContent sn)
  = existsb (fun piece => JS.includes needle (JS.toLowerCase piece))
      (JS.interpolate (title sn) :: JS.interpolate (description sn)
         :: default [] (tags sn)).
Proof.
  intros Hne Hk. unfold textContent.
  change (JS.interpolate (title sn) +:+ " " +:+ JS.interpolate (description sn) +:+ " "
            +:+ JS.join " " (default [] (tags sn)))
    with (JS.interpolate (title sn)
            +:+ String " " (JS.interpolate (description sn)
                              +:+ String " " (JS.join " " (default [] (tags sn))))).
  rewrite !toLowerCase_app. cbn [JS.toLowerCase].
  rewrite toLowerCase_app. cbn [JS.toLowerCase].
  change (JS.lower " ") with " "%char.
  rewrite !includes_app_space by assumption.
  rewrite toLowerCase_join, includes_join by assumption.
  cbn [existsb]. now rewrite existsb_mapped.
Qed.

(** C2. [isYoutubeShort] returns true when [contentDetails] or [snippet] is
    missing, without looking at anything else.  When both are present and
    the duration parses to [d], it returns true exactly when one of the
    rules fires: [d < 180]; the lower-cased text made of the title, the
    description and the tags contains one of the six literals; the id is a
    string containing [/shorts/]; a dimension is present with height >
    width; and it returns false otherwise.  A literal is in that text
    exactly when it is in the lower-cased title, in the lower-cased
    description or in a lower-cased tag; lower-casing turns [A]-[Z] into
    [a]-[z] and leaves the other characters of ASCII text as they are; the
    pieces are set apart by single spaces and an undefined title or
    description reads [undefined].  The four cases of
    the specification follow, and three more: a marker in a tag only, in the
    description only, and a marker cut in two by the separators. *)
Theorem isYoutubeShort_rules :
  (forall video,
      contentDetails video = None \/ snippet video = None ->
      isYoutubeShort video = Ok true)
  /\ (forall video cd sn d,
         contentDetails video = Some cd -> snippet video = Some sn ->
         parseDuration (duration cd) = Ok d ->
         exists b, isYoutubeShort video = Ok b
           /\ (b = true <->
               JS.lt d (JS.Num 180) = true
               \/ (exists keyword,
                      In keyword ["#shorts"; "#short"; "#ytshorts"; "shorts/"; "/shorts";
                                  "youtube.com/shorts"]
                      /\ occurs_in keyword (textContent sn))
               \/ (exists s, id video = Some (IdString s) /\ occurs_in "/shorts/" s)
               \/ (exists dim h w, dimension cd = Some dim
                     /\ height dim = Some h /\ width dim = Some w /\ h > w)))
  /\ (forall sn keyword,
         In keyword ["#shorts"; "#short"; "#ytshorts"; "shorts/"; "/shorts";
                     "youtube.com/shorts"] ->
         occurs_in keyword (textContent sn)
         <-> exists piece,
               In piece (JS.interpolate (title sn) :: JS.interpolate (description sn)
                           :: default [] (tags sn))
               /\ occurs_in keyword (JS.toLowerCase piece))
  /\ JS.toLowerCase "ABCDEFGHIJKLMNOPQRSTUVWXYZ" = "abcdefghijklmnopqrstuvwxyz"
  /\ JS.toLowerCase "@[`{ abc xyz 0189 #/.:_-" = "@[`{ abc xyz 0189 #/.:_-"
  /\ (forall c, JS.code c < 65 \/ 90 < JS.code c < 128 ->
                JS.toLowerCase (String c "") = String c "")
  /\ textContent {| title := Some "My Clip"; description := Some "A B";
                    tags := Some ["X"; "y"]; channelId := None; publishedAt := None |}
     = "my clip a b x y"
  /\ textContent {| title := None; description := None; tags := None;
                    channelId := None; publishedAt := None |}
     = "undefined undefined "
  /\ isYoutubeShort (Demo.video "v1" "PT2M" "Two minutes") = Ok true
  /\ isYoutubeShort (landscape400 "My clip #Shorts") = Ok true
  /\ isYoutubeShort (landscape400 "My talk") = Ok false
  /\ isYoutubeShort (Demo.searchHit "v2" "No details") = Ok true
  /\ isYoutubeShort (landscape "My talk" "A talk" ["music"; "#YTShorts"]) = Ok true
  /\ isYoutubeShort (landscape "My talk" "See YouTube.com/Shorts/abc" []) = Ok true
  /\ isYoutubeShort (landscape "Part #" "shorts of the week" ["#"; "shorts"; "/"])
     = Ok false.
Proof.
  split; [| split; [| split; [| split; [| split; [| split]]]]].
  - intros video [H | H]; unfold isYoutubeShort; rewrite H;
      [reflexivity | now destruct (contentDetails video)].
  - intros video cd sn d Hcd Hsn Hd. unfold isYoutubeShort.
    rewrite Hcd, Hsn, Hd.
    pose proof (hasShortsKeyword_iff sn) as Hk.
    pose proof (idIsShortsUrl_iff video) as Hi.
    pose proof (isVertical_iff cd) as Hv.
    change shortsKeywords
      with ["#shorts"; "#short"; "#ytshorts"; "shorts/"; "/shorts"; "youtube.com/shorts"]
      in Hk.
    destruct (JS.lt d (JS.Num 180)); [exists true; tauto|].
    destruct (hasShortsKeyword sn); [exists true; tauto|].
    destruct (idIsShortsUrl video); [exists true; tauto|].
    destruct (isVertical cd); [exists true; tauto|].
    exists false. split; [reflexivity|].
    split; [discriminate|].
    intros [H | [H | [H | H]]]; [discriminate | | |].
    + now apply Hk in H.
    + now apply Hi in H.
    + now apply Hv in H.
  - intros sn keyword Hin.
    assert (Hkw : keyword <> "" /\ JS.includes " " keyword = false).
    { cbn [In] in Hin.
      destruct Hin as [<- | [<- | [<- | [<- | [<- | [<- | []]]]]]];
        (split; [discriminate | reflexivity]). }
    destruct Hkw as [Hne Hk].
    rewrite <- includes_iff, (includes_textContent keyword sn Hne Hk), existsb_exists.
    split; intros (piece & Hpiece & H); exists piece;
      (split; [exact Hpiece | now apply includes_iff]).
  - reflexivity.
  - reflexivity.
  - intros c Hc. cbn [JS.toLowerCase]. rewrite lower_not_letter; [reflexivity | lia].
  - repeat split; reflexivity.
Qed.

(** The rules at a landscape video of 400 seconds. *)
Lemma isYoutubeShort_rules_witness :
  exists b, isYoutubeShort (landscape400 "My talk") = Ok b.
Proof.
  destruct (proj1 (proj2 isYoutubeShort_rules) (landscape400 "My talk")
              {| duration := Some "PT6M40S";
                 dimension := Some {| height := Some 1080; width := Some 1920 |} |}
              {| title := Some "My talk"; description := Some "A talk";
                 tags := Some ["talk"; "music"]; channelId := Some "UC1";
                 publishedAt := None |}
              (JS.Num 400) eq_refl eq_refl eq_refl) as [b [Hb _]].
  exists b. exact Hb.
Defined.

(** ** Shuffle-with-relevance *)

Section ShuffleProperties.
Context {A : Type}.
Variable truthy : A -> bool.
Variable random : nat -> Q.

(** The chunks are consecutive slices that cover the array. *)
Lemma chunk_loop_concat (fuel i chunkSize : nat) (videos : list A) :
  (0 < chunkSize)%nat ->
  (length videos - i <= fuel)%nat ->
  concat (chunk_loop fuel i chunkSize videos) = drop i videos.
Proof.
  intros Hpos. revert i. induction fuel as [|fuel IH]; intros i Hfuel.
  - simpl. symmetry. apply drop_ge. lia.
  - cbn [chunk_loop]. destruct (Nat.ltb_spec i (length videos)) as [Hlt | Hge].
    + cbn [concat]. rewrite IH by lia. unfold slice.
      replace (i + chunkSize - i)%nat with chunkSize by lia.
      rewrite <- (take_drop chunkSize (drop i videos)) at 2.
      rewrite drop_drop. reflexivity.
    + simpl. symmetry. apply drop_ge. lia.
Qed.

Lemma ceil_third_pos (n : nat) : (0 < n)%nat -> (0 < ceil_third n)%nat.
Proof.
  intros H. unfold ceil_third.
  apply Nat.div_str_pos. lia.
Qed.

Lemma chunks_cover (videos : list A) :
  concat (chunk_loop (length videos) 0 (ceil_third (length videos)) videos) = videos.
Proof.
  destruct videos as [|v videos]; [reflexivity|].
  rewrite chunk_loop_concat; [reflexivity | | lia].
  apply ceil_third_pos. simpl. lia.
Qed.

(** With [random] in [0, 1) the drawn index is at most [i]: the swap stays
    inside the chunk. *)
Lemma random_index_le (n i : nat) :
  (0 <= random n)%Q -> (random n < 1)%Q -> (random_index random n i <= i)%nat.
Proof.
  intros H0 H1. unfold random_index.
  assert (Hlt : (random n * inject_Z (Z.of_nat (i + 1)) < inject_Z (Z.of_nat (i + 1)))%Q).
  { rewrite <- (Qmult_1_l (inject_Z (Z.of_nat (i + 1)))) at 2.
    apply Qmult_lt_compat_r; [|exact H1].
    change 0%Q with (inject_Z 0). rewrite <- Zlt_Qlt. lia. }
  assert (Hfl : (Qfloor (random n * inject_Z (Z.of_nat (i + 1))) < Z.of_nat (i + 1))%Z).
  { rewrite Zlt_Qlt. eapply Qle_lt_trans; [apply Qfloor_le | exact Hlt]. }
  lia.
Qed.

Lemma swap_Permutation (chunk : list A) (i j : nat) : swap chunk i j ≡ₚ chunk.
Proof.
  unfold swap.
  destruct (chunk !! i) as [a|] eqn:Hi; [|reflexivity].
  destruct (chunk !! j) as [b|] eqn:Hj; [|reflexivity].
  now apply Permutation_insert_swap.
Qed.

Lemma fisherYates_Permutation (i : nat) :
  forall (chunk : list A) n, fst (fisherYates random i chunk n) ≡ₚ chunk.
Proof.
  induction i as [|i IH]; intros chunk n; cbn [fisherYates]; [reflexivity|].
  rewrite IH. apply swap_Permutation.
Qed.

Lemma shuffle_chunks_Permutation (chunks : list (list A)) :
  forall n, Forall2 Permutation (fst (shuffle_chunks random chunks n)) chunks.
Proof.
  induction chunks as [|chunk rest IH]; intros n; cbn [shuffle_chunks].
  - constructor.
  - pose proof (fisherYates_Permutation (length chunk - 1) chunk n) as Hc.
    destruct (fisherYates random (length chunk - 1) chunk n) as [chunk' n'].
    specialize (IH n').
    destruct (shuffle_chunks random rest n') as [rest' n''].
    constructor; assumption.
Qed.

Lemma concat_Forall2_Permutation (xs ys : list (list A)) :
  Forall2 Permutation xs ys -> concat xs ≡ₚ concat ys.
Proof.
  induction 1 as [|x y xs ys Hxy _ IH]; simpl; [reflexivity|].
  now rewrite Hxy, IH.
Qed.

Lemma cells_take_drop (chunk : list A) (m : nat) :
  Forall (fun x => truthy x = true) chunk ->
  forall k, flat_map (fun i => pushed truthy i chunk) (seq k m) = take m (drop k chunk).
Proof.
  intros Hall. induction m as [|m IH]; intros k; [reflexivity|].
  cbn [seq flat_map]. rewrite IH. unfold pushed.
  destruct (chunk !! k) as [x|] eqn:Hk.
  - rewrite (drop_S _ _ _ Hk).
    assert (Hx : truthy x = true).
    { rewrite Forall_forall in Hall. apply Hall. eapply list_elem_of_lookup_2, Hk. }
    rewrite Hx. reflexivity.
  - apply lookup_ge_None in Hk.
    rewrite !drop_ge by lia. now rewrite !take_nil.
Qed.

Lemma flat_map_app_Permutation {B} (f g : B -> list A) (l : list B) :
  flat_map (fun i => f i ++ g i) l ≡ₚ flat_map f l ++ flat_map g l.
Proof.
  induction l as [|b l IH]; simpl; [reflexivity|].
  rewrite IH. rewrite <- !app_assoc. apply Permutation_app_head.
  rewrite !app_assoc. apply Permutation_app_tail. apply Permutation_app_comm.
Qed.

(** Reading the columns up to any bound on the chunk lengths yields every
    element once. *)
Lemma columns_Permutation (m : nat) (chunks : list (list A)) :
  Forall (fun chunk => (length chunk <= m)%nat) chunks ->
  Forall (Forall (fun x => truthy x = true)) chunks ->
  flat_map (fun i => column truthy i chunks) (seq 0 m) ≡ₚ concat chunks.
Proof.
  induction chunks as [|chunk rest IH]; intros Hlen Hall.
  - simpl. induction (seq 0 m) as [|i l IHl]; [reflexivity | exact IHl].
  - inversion Hlen as [|? ? Hc Hrest]; subst.
    inversion Hall as [|? ? Hac Harest]; subst.
    change (fun i => column truthy i (chunk :: rest))
      with (fun i => pushed truthy i chunk ++ column truthy i rest).
    rewrite flat_map_app_Permutation.
    rewrite cells_take_drop by assumption.
    rewrite drop_0, take_ge by lia.
    cbn [concat]. now rewrite IH.
Qed.

Lemma maxLength_bound (chunks : list (list A)) :
  Forall (fun chunk => (length chunk <= maxLength chunks)%nat) chunks.
Proof.
  induction chunks as [|chunk rest IH]; constructor; cbn [maxLength foldr].
  - lia.
  - eapply Forall_impl; [exact IH|]. intros c Hc. simpl in Hc.
    unfold maxLength in Hc. lia.
Qed.

Lemma interleave_Permutation (chunks : list (list A)) :
  Forall (Forall (fun x => truthy x = true)) chunks ->
  interleave truthy chunks ≡ₚ concat chunks.
Proof.
  intros Hall. apply columns_Permutation; [apply maxLength_bound | exact Hall].
Qed.

(** The shuffle neither adds nor drops a truthy element. *)
Lemma shuffle_Permutation (videos : list A) :
  Forall (fun x => truthy x = true) videos ->
  shuffleWithRelevance truthy random videos ≡ₚ videos.
Proof.
  intros Hall. unfold shuffleWithRelevance.
  pose proof (chunks_cover videos) as Hcover.
  set (chunks := chunk_loop _ _ _ _) in *.
  pose proof (shuffle_chunks_Permutation chunks 0) as Hperm.
  destruct (shuffle_chunks random chunks 0) as [chunks' n]. cbn [fst] in Hperm.
  rewrite interleave_Permutation.
  - rewrite (concat_Forall2_Permutation _ _ Hperm). now rewrite Hcover.
  - assert (Hchunks : Forall (Forall (fun x => truthy x = true)) chunks).
    { apply Forall_concat. now rewrite Hcover. }
    clear Hcover. induction Hperm as [|c' c cs' cs Hc _ IH]; constructor.
    + inversion Hchunks; subst. now rewrite Hc.
    + inversion Hchunks; subst. now apply IH.
Qed.

Lemma shuffle_short (videos : list A) :
  Forall (fun x => truthy x = true) videos ->
  (length videos <= 1)%nat ->
  shuffleWithRelevance truthy random videos = videos.
Proof.
  intros Hall Hlen. destruct videos as [|v [|w videos]]; [reflexivity | | simpl in Hlen; lia].
  inversion Hall as [|? ? Hv _]; subst.
  unfold shuffleWithRelevance, interleave, column, pushed. simpl. now rewrite Hv.
Qed.

End ShuffleProperties.

(** C4. For every list of videos, and [Math.random] ranging over [0, 1),
    [shuffleWithRelevance] returns a list of the same length that is a
    permutation of its input; an input of length 0 or 1 is returned as it
    is. *)
Theorem shuffleWithRelevance_permutation (random : nat -> Q) (videos : list VideoItem) :
  (forall n, (0 <= random n)%Q /\ (random n < 1)%Q) ->
  length (shuffleWithRelevance object_truthy random videos) = length videos
  /\ shuffleWithRelevance object_truthy random videos ≡ₚ videos
  /\ ((length videos <= 1)%nat ->
      shuffleWithRelevance object_truthy random videos = videos).
Proof.
  intros _.
  assert (Hall : Forall (fun x : VideoItem => object_truthy x = true) videos)
    by (apply Forall_forall; reflexivity).
  pose proof (shuffle_Permutation object_truthy random videos Hall) as Hperm.
  split; [now apply Permutation_length | split; [exact Hperm |]].
  now apply shuffle_short.
Qed.

(** The theorem at twenty videos and a source that always draws 1/2. *)
Lemma shuffleWithRelevance_permutation_witness :
  shuffleWithRelevance object_truthy Demo.half Demo.candidates ≡ₚ Demo.candidates.
Proof.
  refine (proj1 (proj2 (shuffleWithRelevance_permutation Demo.half Demo.candidates _))).
  intros n. unfold Demo.half, Qle, Qlt. simpl. lia.
Defined.

(** ** The filter with a throwing predicate *)

Lemma Array_filter_Ok {A} (p : A -> result bool) (l r : list A) :
  Array_filter p l = Ok r ->
  r = List.filter (passes p) l
  /\ Forall (fun x => p x = Ok true) r
  /\ sublist r l.
Proof.
  revert r. induction l as [|x l IH]; intros r H; cbn [Array_filter] in H.
  - injection H as <-. repeat split; constructor.
  - destruct (p x) as [b|e] eqn:Hx; [|discriminate].
    destruct (Array_filter p l) as [r'|e] eqn:Hl; [|discriminate].
    injection H as <-. destruct (IH r' eq_refl) as (Heq & Hall & Hsub).
    cbn [List.filter]. unfold passes at 1. rewrite Hx.
    destruct b; repeat split; auto.
    + now f_equal.
    + now apply sublist_skip.
    + now apply sublist_cons.
Qed.

Lemma Array_filter_defined {A} (p : A -> result bool) (l : list A) :
  Forall (fun x => exists b, p x = Ok b) l ->
  exists r, Array_filter p l = Ok r.
Proof.
  induction 1 as [|x l [b Hx] _ [r Hr]]; cbn [Array_filter]; [eauto|].
  rewrite Hx, Hr. eauto.
Qed.

Lemma Array_filter_throws {A} (p : A -> result bool) (l : list A) (e : error) :
  Array_filter p l = Throw e -> exists x, In x l /\ p x = Throw e.
Proof.
  induction l as [|x l IH]; cbn [Array_filter]; [discriminate|].
  destruct (p x) as [b|e'] eqn:Hx.
  - destruct (Array_filter p l) as [r|e'']; [discriminate|].
    intros [= ->]. destruct (IH eq_refl) as (y & Hy & Hp). exists y. split; [now right | exact Hp].
  - intros [= ->]. exists x. split; [now left | exact Hx].
Qed.

Lemma notShort_true (video : VideoItem) :
  notShort video = Ok true <-> isYoutubeShort video = Ok false.
Proof.
  unfold notShort. destruct (isYoutubeShort video) as [[]|e]; simpl; split; congruence.
Qed.

(** The only thing the filter throws is the [TypeError] of the duration
    parser. *)
Lemma isYoutubeShort_throws (video : VideoItem) (e : error) :
  isYoutubeShort video = Throw e -> exists m, e = TypeError m.
Proof.
  unfold isYoutubeShort, parseDuration.
  destruct (contentDetails video) as [cd|]; [|discriminate].
  destruct (snippet video) as [sn|]; [|discriminate].
  destruct (duration cd) as [d|]; [|intros [= <-]; eauto].
  destruct (duration_match d) as [[[g1 g2] g3]|]; [|intros [= <-]; eauto].
  repeat match goal with |- context [if ?b then _ else _] => destruct b end;
    discriminate.
Qed.

(** ** The URL-list orchestrator *)

Section ServiceProperties.
Variable World : Type.
Variable new_URL : string -> option URL.
Variable videos_list : VideosList.params -> World -> World * Settled.
Variable search_list : SearchList.params -> World -> World * Settled.

Local Abbreviation loop := (results_loop new_URL videos_list search_list).
Local Abbreviation process := (processVideoUrls new_URL videos_list search_list).

(** One iteration of the loop, call by call. *)
Lemma results_loop_step (url : string) (rest : list string)
    (apiKey pageToken : option string) (results : list VideoItem) (w : World) :
  loop (url :: rest) apiKey pageToken results w =
  match extractVideoId new_URL url with
  | Some (String c s) =>
      match videos_list (detailsParams (String c s) apiKey) w with
      | (w1, Resolved response) =>
          match data_items response with
          | Some (videoDetails :: _) =>
              match search_list (relatedParams videoDetails pageToken) w1 with
              | (w2, Resolved related) =>
                  match data_items related with
                  | Some (item :: more) =>
                      loop rest apiKey pageToken (results ++ item :: more) w2
                  | _ => (w2, Throw (Error "No related videos found"))
                  end
              | (w2, Rejected code message) => (w2, Throw (ApiError code message))
              | (w2, RejectedSyntaxError code message) =>
                  (w2, Throw (SyntaxError code message))
              end
          | _ => loop rest apiKey pageToken results w1
          end
      | (w1, _) => loop rest apiKey pageToken results w1
      end
  | _ => loop rest apiKey pageToken results w
  end.
Proof.
  cbn [results_loop].
  destruct (extractVideoId new_URL url) as [[|c s]|]; try reflexivity.
  unfold bind, getVideoDetails, getRelatedVideos, try_catch, bind, await, ret, throw.
  destruct (videos_list _ w) as [w1 [response|code message|code message]]; [|reflexivity..].
  destruct (data_items response) as [[|videoDetails others]|]; try reflexivity.
  destruct (search_list _ w1) as [w2 [related|code message|code message]]; [|reflexivity..].
  destruct (data_items related) as [[|item more]|]; reflexivity.
Qed.

(** What was pushed before an iteration stays in front. *)
Lemma results_loop_acc (videoUrls : list string) (apiKey pageToken : option string) :
  forall (results : list VideoItem) (w : World),
    loop videoUrls apiKey pageToken results w =
    match loop videoUrls apiKey pageToken [] w with
    | (w', Ok more) => (w', Ok (results ++ more))
    | (w', Throw e) => (w', Throw e)
    end.
Proof.
  induction videoUrls as [|url rest IH]; intros results w.
  - cbn [results_loop]. unfold ret. now rewrite app_nil_r.
  - rewrite !results_loop_step.
    destruct (extractVideoId new_URL url) as [[|c s]|]; try apply IH.
    destruct (videos_list _ w) as [w1 [response|code message|code message]]; [|apply IH..].
    destruct (data_items response) as [[|videoDetails others]|]; try apply IH.
    destruct (search_list _ w1) as [w2 [related|code message|code message]]; [|reflexivity..].
    destruct (data_items related) as [[|item more]|]; try reflexivity.
    rewrite (IH (results ++ item :: more)), (IH ([] ++ item :: more)).
    destruct (loop rest apiKey pageToken [] w2) as [w3 [tail|e]]; [|reflexivity].
    now rewrite app_nil_l, app_assoc.
Qed.

(** The sources are processed one after the other. *)
Lemma results_loop_app (before after : list string) (apiKey pageToken : option string) :
  forall (results : list VideoItem) (w : World),
    loop (before ++ after) apiKey pageToken results w =
    match loop before apiKey pageToken results w with
    | (w', Ok results') => loop after apiKey pageToken results' w'
    | (w', Throw e) => (w', Throw e)
    end.
Proof.
  induction before as [|url rest IH]; intros results w; [reflexivity|].
  rewrite <- app_comm_cons, !results_loop_step.
  destruct (extractVideoId new_URL url) as [[|c s]|]; try apply IH.
  destruct (videos_list _ w) as [w1 [response|code message|code message]]; [|apply IH..].
  destruct (data_items response) as [[|videoDetails others]|]; try apply IH.
  destruct (search_list _ w1) as [w2 [related|code message|code message]]; [|reflexivity..].
  destruct (data_items related) as [[|item more]|]; try reflexivity.
  apply IH.
Qed.

(** [processVideoUrls], outcome by outcome. *)
Lemma processVideoUrls_cases (videoUrls : list string) (apiKey pageToken : option string)
    (w : World) :
  process videoUrls apiKey pageToken w =
  match loop videoUrls apiKey pageToken [] w with
  | (w', Throw e) => (w', Throw e)
  | (w', Ok []) => (w', Throw (Error "No recommendations found"))
  | (w', Ok (video :: results)) =>
      match Array_filter notShort (video :: results) with
      | Throw e => (w', Throw e)
      | Ok filtered =>
          (w', Ok {| items := take MAX_RESULTS filtered; nextPageToken := pageToken |})
      end
  end.
Proof.
  unfold processVideoUrls, try_catch, bind.
  destruct (results_loop _ _ _ _ _ _ _ w) as [w' [[|video results]|e]]; try reflexivity.
  unfold lift, throw, ret.
  destruct (Array_filter notShort (video :: results)); reflexivity.
Qed.

(** What the loop can throw: a rejection of the related-videos call, or the
    error of an empty answer to it. *)
Lemma results_loop_throws (videoUrls : list string) (apiKey pageToken : option string) :
  forall (results : list VideoItem) (w w' : World) (e : error),
    loop videoUrls apiKey pageToken results w = (w', Throw e) ->
    e = Error "No related videos found"
    \/ exists code message, e = ApiError code message \/ e = SyntaxError code message.
Proof.
  induction videoUrls as [|url rest IH]; intros results w w' e.
  - cbn [results_loop]. unfold ret. discriminate.
  - rewrite results_loop_step.
    destruct (extractVideoId new_URL url) as [[|c s]|]; try apply IH.
    destruct (videos_list _ w) as [w1 [response|code message|code message]];
      [|apply IH..].
    destruct (data_items response) as [[|videoDetails others]|]; try apply IH.
    destruct (search_list _ w1) as [w2 [related|code message|code message]];
      [|intros [= <- <-]; eauto..].
    destruct (data_items related) as [[|item more]|];
      try (intros [= <- <-]; now left).
    apply IH.
Qed.

(** A list of URLs without any usable id makes no call at all. *)
Lemma results_loop_no_ids (videoUrls : list string) (apiKey pageToken : option string)
    (results : list VideoItem) (w : World) :
  List.filter truthy_string (map (extractVideoId new_URL) videoUrls) = [] ->
  loop videoUrls apiKey pageToken results w = (w, Ok results).
Proof.
  induction videoUrls as [|url rest IH]; intros H; [reflexivity|].
  rewrite results_loop_step. cbn [map List.filter] in H.
  destruct (extractVideoId new_URL url) as [[|c s]|]; simpl in H;
    try discriminate; now apply IH.
Qed.

(** A page is only returned for a pool that is not empty and on which the
    filter does not throw. *)
Lemma processVideoUrls_returns (videoUrls : list string) (apiKey pageToken : option string)
    (w w' : World) (page : ResultPage) :
  process videoUrls apiKey pageToken w = (w', Ok page) ->
  exists pool filtered,
    loop videoUrls apiKey pageToken [] w = (w', Ok pool)
    /\ pool <> []
    /\ Array_filter notShort pool = Ok filtered
    /\ page = {| items := take MAX_RESULTS filtered; nextPageToken := pageToken |}.
Proof.
  rewrite processVideoUrls_cases.
  destruct (loop videoUrls apiKey pageToken [] w) as [w1 [[|video results]|e]];
    try discriminate.
  destruct (Array_filter notShort (video :: results)) as [filtered|e] eqn:Hf;
    [|discriminate].
  intros [= <- <-]. exists (video :: results), filtered. repeat split; auto; discriminate.
Qed.

(** Whatever page comes back holds at most [MAX_RESULTS] items, none of them
    short-form. *)
Lemma processVideoUrls_page_safe (videoUrls : list string)
    (apiKey pageToken : option string) (w w' : World) (page : ResultPage) :
  process videoUrls apiKey pageToken w = (w', Ok page) ->
  Forall (fun video => isYoutubeShort video = Ok false) (items page)
  /\ (length (items page) <= MAX_RESULTS)%nat.
Proof.
  intros H. apply processVideoUrls_returns in H as (pool & filtered & _ & _ & Hf & ->).
  destruct (Array_filter_Ok _ _ _ Hf) as (_ & Hall & _). cbn [items]. split.
  - apply Forall_take. eapply Forall_impl; [exact Hall|].
    intros v Hv. now apply notShort_true.
  - rewrite length_take. lia.
Qed.

(** C1. Whenever the sources yield a pool that is not empty (and on which
    the Short-Form Filter is defined), [processVideoUrls] returns a page
    whose items are all classified as not short-form, are at most 15
    ([MAX_RESULTS]), and are the first items of the filtered pool in the
    order of the pool: nothing is scored or shuffled. *)
Theorem processVideoUrls_page_invariant (videoUrls : list string)
    (apiKey pageToken : option string) (w w' : World) (pool : list VideoItem) :
  loop videoUrls apiKey pageToken [] w = (w', Ok pool) ->
  pool <> [] ->
  Forall (fun video => exists b, isYoutubeShort video = Ok b) pool ->
  exists page,
    process videoUrls apiKey pageToken w = (w', Ok page)
    /\ Forall (fun video => isYoutubeShort video = Ok false) (items page)
    /\ (length (items page) <= 15)%nat
    /\ items page = take 15 (List.filter (passes notShort) pool)
    /\ sublist (items page) pool.
Proof.
  intros Hloop Hne Hdef. rewrite processVideoUrls_cases, Hloop.
  destruct pool as [|video results]; [congruence|].
  destruct (Array_filter_defined notShort (video :: results)) as [filtered Hf].
  { eapply Forall_impl; [exact Hdef|]. intros v [b Hb]. unfold notShort.
    rewrite Hb. eauto. }
  rewrite Hf. destruct (Array_filter_Ok _ _ _ Hf) as (Heq & Hall & Hsub).
  eexists. split; [reflexivity|]. cbn [items]. unfold MAX_RESULTS.
  repeat split.
  - apply Forall_take. eapply Forall_impl; [exact Hall|].
    intros v Hv. now apply notShort_true.
  - rewrite length_take. lia.
  - now rewrite Heq.
  - etransitivity; [apply sublist_take | exact Hsub].
Qed.

(** C10. The page [processVideoUrls] returns carries the [pageToken] it was
    called with, whatever tokens the related-videos calls returned; calling
    again with the same arguments returns the same token again. *)
Theorem processVideoUrls_nextPageToken (videoUrls : list string)
    (apiKey pageToken : option string) (w w1 : World) (page : ResultPage) :
  process videoUrls apiKey pageToken w = (w1, Ok page) ->
  nextPageToken page = pageToken
  /\ forall w2 page', process videoUrls apiKey pageToken w1 = (w2, Ok page') ->
                      nextPageToken page' = nextPageToken page.
Proof.
  intros H. apply processVideoUrls_returns in H as (pool & filtered & _ & _ & _ & ->).
  split; [reflexivity|].
  intros w2 page' H'.
  apply processVideoUrls_returns in H' as (pool' & filtered' & _ & _ & _ & ->).
  reflexivity.
Qed.

(** The handler, when the service returns a page without items. *)
Lemma handleUrlInput_empty_page (YOUTUBE_API_KEY NODE_ENV : option string)
    (req : Request) (urls : list string) (w w' : World) (page : ResultPage) :
  body_urls req = Some urls ->
  (length urls <= 5)%nat ->
  process urls YOUTUBE_API_KEY (query_pageToken req) w = (w', Ok page) ->
  items page = [] ->
  handleUrlInput new_URL videos_list search_list YOUTUBE_API_KEY NODE_ENV req w
  = (w', {| status := 404;
            body := ErrorBody "No recommendations found. Try different videos." None |}).
Proof.
  intros Hbody Hlen Hrun Hitems. unfold handleUrlInput. rewrite Hbody.
  destruct (processVideoUrls_returns _ _ _ _ _ _ Hrun)
    as (pool & filtered & Hloop & Hne & _ & _).
  destruct urls as [|url urls'].
  { cbn [results_loop] in Hloop. unfold ret in Hloop. congruence. }
  destruct (Nat.ltb_spec 5 (length (url :: urls'))) as [Hgt | _]; [lia|].
  destruct (List.filter truthy_string (map (extractVideoId new_URL) (url :: urls')))
    as [|i ids] eqn:Hids.
  { rewrite (results_loop_no_ids _ _ _ _ _ Hids) in Hloop. congruence. }
  unfold bind. rewrite Hrun, Hitems. reflexivity.
Qed.

(** The handler, when the service throws its own error: the catch block
    finds no [code] on it. *)
Lemma handleUrlInput_service_error (YOUTUBE_API_KEY NODE_ENV : option string)
    (req : Request) (urls : list string) (w w' : World) (message : string) :
  body_urls req = Some urls ->
  (length urls <= 5)%nat ->
  List.filter truthy_string (map (extractVideoId new_URL) urls) <> [] ->
  process urls YOUTUBE_API_KEY (query_pageToken req) w = (w', Throw (Error message)) ->
  status (snd (handleUrlInput new_URL videos_list search_list YOUTUBE_API_KEY NODE_ENV
                 req w)) = 500.
Proof.
  intros Hbody Hlen Hids Hrun. unfold handleUrlInput. rewrite Hbody.
  destruct urls as [|url urls']; [now contradiction Hids|].
  destruct (Nat.ltb_spec 5 (length (url :: urls'))) as [Hgt | _]; [lia|].
  destruct (List.filter truthy_string (map (extractVideoId new_URL) (url :: urls')))
    as [|i ids]; [congruence|].
  unfold bind. rewrite Hrun. reflexivity.
Qed.

(** C7, amended. [processVideoUrls] throws [No recommendations found]
    exactly when the pool gathered from the sources is empty, before any
    filtering.  When the pool is not empty and no item survives the
    Short-Form Filter it returns a page without items, which
    [handleUrlInput] answers with status 404 and
    [No recommendations found. Try different videos.] *)
Theorem processVideoUrls_no_recommendations :
  (forall videoUrls apiKey pageToken w w',
      process videoUrls apiKey pageToken w
      = (w', Throw (Error "No recommendations found"))
      <-> loop videoUrls apiKey pageToken [] w = (w', Ok []))
  /\ (forall videoUrls apiKey pageToken w w' pool,
         loop videoUrls apiKey pageToken [] w = (w', Ok pool) ->
         pool <> [] ->
         Array_filter notShort pool = Ok [] ->
         process videoUrls apiKey pageToken w
         = (w', Ok {| items := []; nextPageToken := pageToken |}))
  /\ (forall YOUTUBE_API_KEY NODE_ENV req urls w w' page,
         body_urls req = Some urls ->
         (length urls <= 5)%nat ->
         process urls YOUTUBE_API_KEY (query_pageToken req) w = (w', Ok page) ->
         items page = [] ->
         handleUrlInput new_URL videos_list search_list YOUTUBE_API_KEY NODE_ENV req w
         = (w', {| status := 404;
                   body := ErrorBody "No recommendations found. Try different videos."
                             None |})).
Proof.
  split; [| split].
  - intros videoUrls apiKey pageToken w w'. rewrite processVideoUrls_cases. split.
    + destruct (loop videoUrls apiKey pageToken [] w)
        as [w1 [[|video results]|e]] eqn:Hloop.
      * now intros [= ->].
      * destruct (Array_filter notShort (video :: results)) as [filtered|e] eqn:Hf;
          [discriminate|].
        intros [= -> ->].
        apply Array_filter_throws in Hf as (x & _ & Hx).
        unfold notShort in Hx.
        destruct (isYoutubeShort x) as [b|e] eqn:Hs; [discriminate|].
        injection Hx as ->. apply isYoutubeShort_throws in Hs as [m Hm]. discriminate.
      * intros [= -> ->].
        apply results_loop_throws in Hloop as [H | (code & message & [H | H])];
          discriminate.
    + now intros ->.
  - intros videoUrls apiKey pageToken w w' pool Hloop Hne Hf.
    rewrite processVideoUrls_cases, Hloop.
    destruct pool as [|video results]; [congruence|]. now rewrite Hf.
  - intros. eapply handleUrlInput_empty_page; eassumption.
Qed.

(** [getVideoDetails] never throws: a rejection and an answer without item
    both come back as [null]. *)
Lemma getVideoDetails_soft (videoId : string) (apiKey : option string) (w : World) :
  getVideoDetails videos_list videoId apiKey w
  = (fst (videos_list (detailsParams videoId apiKey) w),
     Ok match snd (videos_list (detailsParams videoId apiKey) w) with
        | Resolved response =>
            match data_items response with
            | Some (item :: _) => Some item
            | _ => None
            end
        | Rejected _ _ | RejectedSyntaxError _ _ => None
        end).
Proof.
  unfold getVideoDetails, try_catch, bind, await, ret.
  destruct (videos_list _ w) as [w1 [response|code message|code message]]; cbn [fst snd];
    [|reflexivity..].
  destruct (data_items response) as [[|item others]|]; reflexivity.
Qed.

(** [getRelatedVideos] throws the rejection of the search call, and its own
    error on an answer without item. *)
Lemma getRelatedVideos_cases (videoDetails : VideoItem) (apiKey pageToken : option string)
    (w : World) :
  getRelatedVideos search_list videoDetails apiKey pageToken w
  = match search_list (relatedParams videoDetails pageToken) w with
    | (w', Resolved response) =>
        match data_items response with
        | Some (item :: more) =>
            (w', Ok {| items := item :: more;
                       nextPageToken := data_nextPageToken response |})
        | _ => (w', Throw (Error "No related videos found"))
        end
    | (w', Rejected code message) => (w', Throw (ApiError code message))
    | (w', RejectedSyntaxError code message) => (w', Throw (SyntaxError code message))
    end.
Proof.
  unfold getRelatedVideos, try_catch, bind, await, ret, throw.
  destruct (search_list _ w) as [w1 [response|code message|code message]]; [|reflexivity..].
  destruct (data_items response) as [[|item others]|]; reflexivity.
Qed.

(** One iteration in terms of the two per-source calls. *)
Lemma results_loop_source (videoId : string) (url : string) (rest : list string)
    (apiKey pageToken : option string) (results : list VideoItem) (w : World) :
  extractVideoId new_URL url = Some videoId ->
  truthy_string (Some videoId) = true ->
  loop (url :: rest) apiKey pageToken results w =
  match getVideoDetails videos_list videoId apiKey w with
  | (w1, Ok (Some videoDetails)) =>
      match getRelatedVideos search_list videoDetails apiKey pageToken w1 with
      | (w2, Ok related) => loop rest apiKey pageToken (results ++ items related) w2
      | (w2, Throw e) => (w2, Throw e)
      end
  | (w1, Ok None) => loop rest apiKey pageToken results w1
  | (w1, Throw e) => (w1, Throw e)
  end.
Proof.
  intros Hid Htruthy. rewrite results_loop_step, Hid.
  destruct videoId as [|c s]; [discriminate|].
  rewrite getVideoDetails_soft.
  destruct (videos_list _ w) as [w1 [response|code message|code message]]; cbn [fst snd];
    [|reflexivity..].
  destruct (data_items response) as [[|videoDetails others]|]; try reflexivity.
  rewrite getRelatedVideos_cases.
  destruct (search_list _ w1) as [w2 [related|code message|code message]]; [|reflexivity..].
  destruct (data_items related) as [[|item more]|]; reflexivity.
Qed.

(** A source whose two calls succeed adds the items of the answer, in the
    order of the answer, behind what the earlier sources added. *)
Lemma results_loop_pushes (before : list string) (url : string)
    (apiKey pageToken : option string) (w0 w w1 w2 : World)
    (results : list VideoItem) (videoId : string) (videoDetails : VideoItem)
    (related : ResultPage) :
  loop before apiKey pageToken [] w0 = (w, Ok results) ->
  extractVideoId new_URL url = Some videoId ->
  truthy_string (Some videoId) = true ->
  getVideoDetails videos_list videoId apiKey w = (w1, Ok (Some videoDetails)) ->
  getRelatedVideos search_list videoDetails apiKey pageToken w1 = (w2, Ok related) ->
  loop (before ++ [url]) apiKey pageToken [] w0 = (w2, Ok (results ++ items related)).
Proof.
  intros Hb Hid Ht Hd Hr. rewrite results_loop_app, Hb.
  now rewrite (results_loop_source videoId), Hd, Hr.
Qed.

(** C8. For a source at any position of the list: when its
    fetch-video-details call fails or finds nothing ([getVideoDetails]
    returns [null], which is also what a rejection of the API call
    becomes), the source is skipped and the remaining sources are
    processed; when its fetch-related-videos call fails, with whatever
    error, the whole of [processVideoUrls] fails with that error. *)
Theorem failure_policy :
  (forall videoId apiKey w,
      exists o, getVideoDetails videos_list videoId apiKey w
                = (fst (videos_list (detailsParams videoId apiKey) w), Ok o)
        /\ (forall code message,
               snd (videos_list (detailsParams videoId apiKey) w) = Rejected code message ->
               o = None)
        /\ (forall code message,
               snd (videos_list (detailsParams videoId apiKey) w)
               = RejectedSyntaxError code message ->
               o = None)
        /\ (forall response,
               snd (videos_list (detailsParams videoId apiKey) w) = Resolved response ->
               data_items response = None \/ data_items response = Some [] ->
               o = None))
  /\ (forall before url after apiKey pageToken w0 w results videoId w1,
         loop before apiKey pageToken [] w0 = (w, Ok results) ->
         extractVideoId new_URL url = Some videoId ->
         truthy_string (Some videoId) = true ->
         getVideoDetails videos_list videoId apiKey w = (w1, Ok None) ->
         loop (before ++ url :: after) apiKey pageToken [] w0
         = loop after apiKey pageToken results w1)
  /\ (forall before url after apiKey pageToken w0 w results videoId w1 videoDetails w2 e,
         loop before apiKey pageToken [] w0 = (w, Ok results) ->
         extractVideoId new_URL url = Some videoId ->
         truthy_string (Some videoId) = true ->
         getVideoDetails videos_list videoId apiKey w = (w1, Ok (Some videoDetails)) ->
         getRelatedVideos search_list videoDetails apiKey pageToken w1 = (w2, Throw e) ->
         process (before ++ url :: after) apiKey pageToken w0 = (w2, Throw e)).
Proof.
  split; [| split].
  - intros videoId apiKey w. rewrite getVideoDetails_soft.
    eexists. split; [reflexivity|]. split; [| split].
    + now intros code message ->.
    + now intros code message ->.
    + now intros response -> [-> | ->].
  - intros before url after apiKey pageToken w0 w results videoId w1 Hb Hid Ht Hd.
    rewrite results_loop_app, Hb.
    now rewrite (results_loop_source videoId), Hd.
  - intros before url after apiKey pageToken w0 w results videoId w1 videoDetails w2 e
      Hb Hid Ht Hd Hr.
    rewrite processVideoUrls_cases, results_loop_app, Hb.
    now rewrite (results_loop_source videoId), Hd, Hr.
Qed.

End ServiceProperties.

(** ** The video-id extractor *)

(** C5. [extractVideoId] returns [null] when the string does not parse as a
    URL; the [v] query parameter when the host contains [youtube.com] (a
    missing or empty parameter is falsy, which callers take as not found);
    otherwise the path without its first character, the leading slash, when
    the host contains [youtu.be]; and [null] for any other host.  It is a
    total function: nothing is thrown.  The three URLs of the specification
    give [ABC123], [XYZ789] and [null]. *)
Theorem extractVideoId_rules :
  (forall (new_URL : string -> option URL) (url : string),
      (new_URL url = None -> extractVideoId new_URL url = None)
      /\ (forall urlObj, new_URL url = Some urlObj ->
            (occurs_in "youtube.com" (hostname urlObj) ->
             extractVideoId new_URL url = searchParams_get "v" (searchParams urlObj)
             /\ (searchParams_get "v" (searchParams urlObj) = None
                 \/ searchParams_get "v" (searchParams urlObj) = Some "" ->
                 truthy_string (extractVideoId new_URL url) = false))
            /\ (~ occurs_in "youtube.com" (hostname urlObj) ->
                occurs_in "youtu.be" (hostname urlObj) ->
                extractVideoId new_URL url = Some (JS.slice1 (pathname urlObj))
                /\ (forall p, pathname urlObj = String "/" p ->
                              extractVideoId new_URL url = Some p))
            /\ (~ occurs_in "youtube.com" (hostname urlObj) ->
                ~ occurs_in "youtu.be" (hostname urlObj) ->
                extractVideoId new_URL url = None)))
  /\ extractVideoId http_URL "https://www.youtube.com/watch?v=ABC123" = Some "ABC123"
  /\ extractVideoId http_URL "https://youtu.be/XYZ789" = Some "XYZ789"
  /\ extractVideoId http_URL "https://example.com/video" = None
  /\ extractVideoId http_URL "not a url" = None.
Proof.
  split; [| repeat split; reflexivity].
  intros new_URL url. unfold extractVideoId. split.
  - now intros ->.
  - intros urlObj ->. rewrite <- !includes_iff.
    destruct (JS.includes "youtube.com" (hostname urlObj)).
    + repeat split; try congruence.
      intros [-> | ->]; reflexivity.
    + destruct (JS.includes "youtu.be" (hostname urlObj)).
      * repeat split; try congruence.
        intros p ->. reflexivity.
      * repeat split; congruence.
Qed.

(** The rules at a [youtu.be] link. *)
Lemma extractVideoId_rules_witness :
  extractVideoId http_URL "https://youtu.be/XYZ789" = Some "XYZ789".
Proof.
  refine (proj2 (proj1 (proj2 (proj2 (proj1 extractVideoId_rules http_URL
            "https://youtu.be/XYZ789") _ eq_refl)) _ _) "XYZ789" eq_refl).
  - rewrite <- includes_iff. discriminate.
  - rewrite <- includes_iff. reflexivity.
Defined.

(** ** The popularity term *)

Lemma popularity_positive (st : Statistics) (n : Z) :
  Score.viewCount_of st = JS.Num n ->
  0 < n ->
  Score.popularityScore st = Score.Finite (Rmin (4 / 10) (ln (IZR n) / ln 10 / 10)).
Proof.
  intros Hcount H. unfold Score.popularityScore, Score.log10. rewrite Hcount.
  destruct (Z.ltb_spec n 0); [lia|].
  destruct (Z.eqb_spec n 0); [lia|].
  reflexivity.
Qed.

(** C6, the code at a video without views.  The popularity term is
    [-Infinity], not 0, and so is the score once the term is added; with a
    negative count the term is [NaN]. *)
Theorem popularity_without_views :
  Score.popularityScore {| viewCount := Some "0"; likeCount := Some "0" |}
  = Score.NegInfinity
  /\ (forall score : R,
         Score.addPopularity
           {| id := Some (IdString "fresh"); snippet := None; contentDetails := None;
              statistics := Some {| viewCount := Some "0"; likeCount := Some "0" |} |}
           (Score.Finite score)
         = Score.NegInfinity)
  /\ Score.popularityScore {| viewCount := None; likeCount := None |} = Score.NegInfinity
  /\ Score.popularityScore {| viewCount := Some "-5"; likeCount := None |} = Score.NaN.
Proof. repeat split. Qed.

(** ** The watch-history orchestrator *)

Section SortProperties.
Variable Date_parse : string -> JS.number.

Local Abbreviation sorted_list := (StronglySorted (newest_first Date_parse)).

Lemma sort_insert_Permutation {A} (compareFn : A -> A -> JS.number) (x : A) (l : list A) :
  sort_insert compareFn x l ≡ₚ x :: l.
Proof.
  induction l as [|y l IH]; cbn [sort_insert]; [reflexivity|].
  destruct (JS.gt (compareFn x y) (JS.Num 0)); [|reflexivity].
  rewrite IH. apply Permutation_swap.
Qed.

Lemma Array_sort_Permutation {A} (compareFn : A -> A -> JS.number) (l : list A) :
  Array_sort compareFn l ≡ₚ l.
Proof.
  induction l as [|x l IH]; [reflexivity|].
  change (Array_sort compareFn (x :: l))
    with (sort_insert compareFn x (Array_sort compareFn l)).
  rewrite sort_insert_Permutation. now constructor.
Qed.

Lemma newest_first_trans (a b c : HistoryEntry) :
  newest_first Date_parse a b -> newest_first Date_parse b c ->
  newest_first Date_parse a c.
Proof.
  intros (ta & tb & Ha & Hb & Hab) (tb' & tc & Hb' & Hc & Hbc).
  rewrite Hb in Hb'. injection Hb' as <-.
  exists ta, tc. repeat split; auto. lia.
Qed.

(** The comparator on two valid dates. *)
Lemma byMostRecent_gt (x y : HistoryEntry) :
  valid_date Date_parse x -> valid_date Date_parse y ->
  if JS.gt (byMostRecent Date_parse x y) (JS.Num 0)
  then newest_first Date_parse y x
  else newest_first Date_parse x y.
Proof.
  intros [tx Hx] [ty Hy]. unfold byMostRecent. rewrite Hx, Hy.
  change (number_sub (JS.Num ty) (JS.Num tx)) with (JS.round (ty - tx)).
  rewrite gt_zero_round.
  destruct (Z.ltb_spec 0 (ty - tx)); [exists ty, tx | exists tx, ty];
    repeat split; auto; lia.
Qed.

Lemma sort_insert_sorted (x : HistoryEntry) (l : list HistoryEntry) :
  valid_date Date_parse x -> Forall (valid_date Date_parse) l ->
  sorted_list l -> sorted_list (sort_insert (byMostRecent Date_parse) x l).
Proof.
  intros Hx Hl Hs. induction Hs as [|y l Hs IH Hy]; cbn [sort_insert].
  - repeat constructor.
  - inversion Hl as [|? ? Hvy Hvl]; subst.
    pose proof (byMostRecent_gt x y Hx Hvy) as Hcmp.
    destruct (JS.gt (byMostRecent Date_parse x y) (JS.Num 0)).
    + constructor; [now apply IH|].
      rewrite sort_insert_Permutation. now constructor.
    + constructor; [now constructor|].
      constructor; [exact Hcmp|].
      eapply Forall_impl; [exact Hy|].
      intros z Hz. now apply newest_first_trans with y.
Qed.

Lemma Array_sort_sorted (l : list HistoryEntry) :
  Forall (valid_date Date_parse) l ->
  sorted_list (Array_sort (byMostRecent Date_parse) l).
Proof.
  induction 1 as [|x l Hx Hl IH]; [constructor|].
  change (Array_sort (byMostRecent Date_parse) (x :: l))
    with (sort_insert (byMostRecent Date_parse) x
            (Array_sort (byMostRecent Date_parse) l)).
  apply sort_insert_sorted; auto.
  now rewrite Array_sort_Permutation.
Qed.

End SortProperties.

Section TakeoutProperties.
Variable new_URL : string -> option URL.

Lemma Set_add_spec (x : string) (s : list string) :
  NoDup s ->
  NoDup (Set_add x s)
  /\ (forall y, y ∈ Set_add x s <-> y = x \/ y ∈ s)
  /\ (length (Set_add x s) <= S (length s))%nat.
Proof.
  intros Hs. unfold Set_add. case_bool_decide as Hin.
  - split; [exact Hs | split].
    + intros y. split; [tauto | intros [-> | H]; assumption].
    + lia.
  - split; [| split].
    + apply NoDup_app. split; [exact Hs | split].
      * intros y Hy Hy'. apply list_elem_of_singleton in Hy' as ->. contradiction.
      * apply NoDup_singleton.
    + intros y. rewrite elem_of_app, list_elem_of_singleton. tauto.
    + rewrite length_app. simpl. lia.
Qed.

Lemma addVideoId_spec (e : HistoryEntry) (s : list string) :
  truthy_string (titleUrl e) = true ->
  NoDup s ->
  NoDup (addVideoId new_URL s e)
  /\ (forall id, id ∈ addVideoId new_URL s e <-> id ∈ s \/ id_of_entry new_URL id e)
  /\ (length (addVideoId new_URL s e) <= S (length s))%nat.
Proof.
  intros He Hs. unfold addVideoId, id_of_entry.
  destruct (titleUrl e) as [u|] eqn:Hu; [|discriminate].
  change (default "" (Some u)) with u.
  assert (Hskip : (forall id, extractVideoId new_URL u = Some id -> id = "") ->
                  NoDup s
                  /\ (forall id, id ∈ s <->
                        id ∈ s \/ id <> "" /\ exists u', Some u = Some u'
                                    /\ extractVideoId new_URL u' = Some id)
                  /\ (length s <= S (length s))%nat).
  { intros Hnone. split; [exact Hs | split; [|lia]].
    intros id. split; [tauto|].
    intros [H | (Hne & u' & [= <-] & Hid)]; [exact H|].
    now apply Hnone in Hid. }
  destruct (extractVideoId new_URL u) as [[|c v]|] eqn:Hid.
  - apply Hskip. now intros id [= <-].
  - destruct (Set_add_spec (String c v) s Hs) as (Hnd & Hmem & Hlen).
    split; [exact Hnd | split; [|exact Hlen]].
    intros id. rewrite Hmem. split.
    + intros [-> | H]; [right | now left].
      split; [discriminate | eauto].
    + intros [H | (Hne & u' & [= <-] & Hid')]; [now right | left]. congruence.
  - apply Hskip. intros id [=].
Qed.

Lemma collect_fold (entries : list HistoryEntry) :
  Forall (fun e => truthy_string (titleUrl e) = true) entries ->
  forall s, NoDup s ->
    NoDup (fold_left (addVideoId new_URL) entries s)
    /\ (forall id, id ∈ fold_left (addVideoId new_URL) entries s
                   <-> id ∈ s \/ exists e, e ∈ entries /\ id_of_entry new_URL id e)
    /\ (length (fold_left (addVideoId new_URL) entries s)
        <= length s + length entries)%nat.
Proof.
  induction 1 as [|e entries He _ IH]; intros s Hs; cbn [fold_left].
  - split; [exact Hs | split; [|simpl; lia]].
    intros id. split; [tauto|].
    intros [H | (e & He & _)]; [exact H | inversion He].
  - destruct (addVideoId_spec e s He Hs) as (Hnd0 & Hmem0 & Hlen0).
    destruct (IH _ Hnd0) as (Hnd & Hmem & Hlen).
    split; [exact Hnd | split; [|simpl; lia]].
    intros id. rewrite Hmem, Hmem0. split.
    + intros [[H | H] | (e' & He' & H)].
      * now left.
      * right. exists e. split; [now left | exact H].
      * right. exists e'. split; [now right | exact H].
    + intros [H | (e' & He' & H)]; [tauto|].
      apply elem_of_cons in He' as [-> | He']; [tauto|].
      right. eauto.
Qed.

End TakeoutProperties.

Lemma isWatchEntry_iff (e : HistoryEntry) :
  isWatchEntry e = true
  <-> exists u, titleUrl e = Some u /\ occurs_in "youtube.com/watch" u.
Proof.
  unfold isWatchEntry. destruct (titleUrl e) as [u|].
  - change (default "" (Some u)) with u. rewrite andb_true_iff, includes_iff. split.
    + intros [_ H]. eauto.
    + intros (u' & [= <-] & H). split; [|exact H].
      apply includes_iff in H. now destruct u.
  - split; [discriminate | intros (u & [=] & _)].
Qed.

(** C9. [processTakeoutFile] keeps the entries whose [titleUrl] contains
    [youtube.com/watch]; with valid dates on them, the entries it goes on
    with are sorted from the most recent, are the 10 most recent ones (all
    of them if there are fewer), and none of the entries left out is more
    recent; their non-empty video ids are collected without duplicates, each
    id becomes [https://youtube.com/watch?v=<id>], and the resulting list,
    of at most 10 URLs, is what [processVideoUrls] is called with, with no
    page token: the limit of 5 URLs of the handler does not apply.  A history
    of twelve different videos gives 10 URLs. *)
Theorem processTakeoutFile_pipeline :
  (forall (World : Type) (new_URL : string -> option URL)
          (videos_list : VideosList.params -> World -> World * Settled)
          (search_list : SearchList.params -> World -> World * Settled)
          (Date_parse : string -> JS.number)
          (watchHistory : list HistoryEntry) (apiKey : option string),
      Forall (fun e => isWatchEntry e = true -> valid_date Date_parse e) watchHistory ->
      let watched := List.filter isWatchEntry watchHistory in
      let recent := recentEntries Date_parse watchHistory in
      let ids := collectIds new_URL recent in
      let urls := takeoutUrls new_URL Date_parse watchHistory in
      (forall e, In e watched <->
                 In e watchHistory
                 /\ exists u, titleUrl e = Some u /\ occurs_in "youtube.com/watch" u)
      /\ (exists older,
             recent ++ older ≡ₚ watched
             /\ forall a b, a ∈ recent -> b ∈ older -> newest_first Date_parse a b)
      /\ length recent = Nat.min 10 (length watched)
      /\ StronglySorted (newest_first Date_parse) recent
      /\ NoDup ids
      /\ (forall id, id ∈ ids <-> exists e, e ∈ recent /\ id_of_entry new_URL id e)
      /\ urls = map (fun id => "https://youtube.com/watch?v=" +:+ id) ids
      /\ (length urls <= 10)%nat
      /\ forall w,
           processTakeoutFile new_URL videos_list search_list Date_parse watchHistory apiKey w
           = processVideoUrls new_URL videos_list search_list urls apiKey None w)
  /\ length (takeoutUrls http_URL Demo.Date_parse Demo.longHistory) = 10%nat.
Proof.
  split; [| reflexivity].
  intros World new_URL videos_list search_list Date_parse watchHistory apiKey Hvalid
         watched recent ids urls.
  set (sorted := Array_sort (byMostRecent Date_parse) watched).
  assert (Hperm : sorted ≡ₚ watched) by apply Array_sort_Permutation.
  assert (Hwatched : Forall (fun e => isWatchEntry e = true /\ valid_date Date_parse e)
                            watched).
  { apply Forall_forall. intros e He.
    apply list_elem_of_In, filter_In in He as [Hin Hw]. split; [exact Hw|].
    rewrite Forall_forall in Hvalid. apply Hvalid; [now apply list_elem_of_In | exact Hw]. }
  assert (Hsorted : StronglySorted (newest_first Date_parse) sorted).
  { apply Array_sort_sorted. eapply Forall_impl; [exact Hwatched|]. now intros e [_ H]. }
  assert (Hsplit : recent ++ drop 10 sorted = sorted) by apply take_drop.
  assert (Hrecent : Forall (fun e => truthy_string (titleUrl e) = true) recent).
  { apply Forall_forall. intros e He.
    assert (Hin : e ∈ watched).
    { rewrite <- Hperm, <- Hsplit. apply elem_of_app. now left. }
    rewrite Forall_forall in Hwatched. destruct (Hwatched e Hin) as [Hw _].
    unfold isWatchEntry in Hw. now apply andb_true_iff in Hw as [Hw _]. }
  destruct (collect_fold new_URL recent Hrecent [] (NoDup_nil_2))
    as (Hnd & Hmem & Hlen).
  assert (Hlen10 : (length recent <= 10)%nat).
  { unfold recent, recentEntries. rewrite length_take. lia. }
  split; [| split; [| split; [| split; [| split; [| split; [| split; [| split]]]]]]].
  - intros e. unfold watched. rewrite filter_In, isWatchEntry_iff. tauto.
  - exists (drop 10 sorted). split; [now rewrite Hsplit|].
    intros a b Ha Hb. rewrite <- Hsplit in Hsorted.
    eapply StronglySorted_app_1_elem_of; eassumption.
  - unfold recent, recentEntries. fold watched. fold sorted.
    rewrite length_take. now rewrite (Permutation_length Hperm).
  - rewrite <- Hsplit in Hsorted. eapply StronglySorted_app_1_l, Hsorted.
  - exact Hnd.
  - intros id. unfold ids, collectIds. rewrite Hmem. split; [|tauto].
    intros [Hin | Hin]; [inversion Hin | exact Hin].
  - reflexivity.
  - unfold urls, takeoutUrls, collectIds, recent in *. simpl in Hlen.
    rewrite length_map. lia.
  - reflexivity.
Qed.

(** The theorem at a history of five entries, four of them watch pages. *)
Lemma processTakeoutFile_pipeline_witness :
  NoDup (collectIds http_URL (recentEntries Demo.Date_parse Demo.history))
  /\ takeoutUrls http_URL Demo.Date_parse Demo.history
     = ["https://youtube.com/watch?v=new"; "https://youtube.com/watch?v=mid";
        "https://youtube.com/watch?v=old"].
Proof.
  assert (Hvalid : Forall (fun e => isWatchEntry e = true -> valid_date Demo.Date_parse e)
                          Demo.history).
  { repeat constructor; intros _; eexists; reflexivity. }
  pose proof (proj1 processTakeoutFile_pipeline nat http_URL Demo.videos_list
                Demo.search_list Demo.Date_parse Demo.history None Hvalid) as H.
  cbv zeta in H. destruct H as (_ & _ & _ & _ & Hnd & _ & _ & _).
  split; [exact Hnd | reflexivity].
Defined.

(** ** The orchestrator on concrete sources *)

(** The page invariant at two sources of twenty candidates each, ten of them
    short. *)
Lemma processVideoUrls_page_invariant_witness :
  exists page,
    processVideoUrls http_URL Demo.videos_list Demo.search_list
      ["https://youtu.be/abc"; "https://www.youtube.com/watch?v=def"] None None 0%nat
    = (4%nat, Ok page)
    /\ Forall (fun video => isYoutubeShort video = Ok false) (items page)
    /\ (length (items page) <= 15)%nat.
Proof.
  destruct (processVideoUrls_page_invariant nat http_URL Demo.videos_list Demo.search_list
              ["https://youtu.be/abc"; "https://www.youtube.com/watch?v=def"] None None
              0%nat 4%nat (Demo.candidates ++ Demo.candidates) eq_refl)
    as (page & Hrun & Hall & Hlen & _).
  - discriminate.
  - repeat constructor; eexists; reflexivity.
  - exists page. repeat split; assumption.
Defined.

(** The page token at the source [pair]. *)
Lemma processVideoUrls_nextPageToken_witness :
  nextPageToken Demo.pairPage = Some "tok".
Proof.
  exact (proj1 (processVideoUrls_nextPageToken nat http_URL Demo.videos_list
                  Demo.search_list ["https://youtu.be/pair"] None (Some "tok")
                  0%nat 2%nat Demo.pairPage eq_refl)).
Defined.

(** C7 as stated fails: both search hits are filtered out, and the service
    returns a page without items instead of throwing. *)
Lemma no_recommendations_counterexample :
  results_loop http_URL Demo.videos_list Demo.search_list ["https://youtu.be/hits"]
    None None [] 0%nat
  = (2%nat, Ok [Demo.searchHit "a1" "First"; Demo.searchHit "b2" "Second"])
  /\ Array_filter notShort [Demo.searchHit "a1" "First"; Demo.searchHit "b2" "Second"]
     = Ok []
  /\ processVideoUrls http_URL Demo.videos_list Demo.search_list ["https://youtu.be/hits"]
       None None 0%nat
     = (2%nat, Ok {| items := []; nextPageToken := None |})
  /\ snd (processVideoUrls http_URL Demo.videos_list Demo.search_list
            ["https://youtu.be/hits"] None None 0%nat)
     <> Throw (Error "No recommendations found").
Proof. repeat split; discriminate. Qed.

(** The amended C7 at the source [hits]. *)
Lemma processVideoUrls_no_recommendations_witness :
  handleUrlInput http_URL Demo.videos_list Demo.search_list None None
    {| body_urls := Some ["https://youtu.be/hits"]; query_pageToken := None |} 0%nat
  = (2%nat, {| status := 404;
               body := ErrorBody "No recommendations found. Try different videos." None |}).
Proof.
  refine (proj2 (proj2 (processVideoUrls_no_recommendations nat http_URL Demo.videos_list
                          Demo.search_list))
            None None
            {| body_urls := Some ["https://youtu.be/hits"]; query_pageToken := None |}
            ["https://youtu.be/hits"] 0%nat 2%nat
            {| items := []; nextPageToken := None |} eq_refl _ _ eq_refl).
  - simpl. lia.
  - exact (proj1 (proj2 (processVideoUrls_no_recommendations nat http_URL
                           Demo.videos_list Demo.search_list))
             ["https://youtu.be/hits"] None None 0%nat 2%nat
             [Demo.searchHit "a1" "First"; Demo.searchHit "b2" "Second"]
             eq_refl ltac:(discriminate) eq_refl).
Defined.

(** The failure policy at three sources: the second one is gone, or out of
    quota. *)
Lemma failure_policy_witness :
  results_loop http_URL Demo.videos_list Demo.search_list
    (["https://youtu.be/pair"] ++ "https://youtu.be/gone" :: ["https://youtu.be/hits"])
    None None [] 0%nat
  = results_loop http_URL Demo.videos_list Demo.search_list ["https://youtu.be/hits"]
      None None Demo.pairItems 3%nat
  /\ processVideoUrls http_URL Demo.videos_list Demo.search_list
       (["https://youtu.be/pair"] ++ "https://youtu.be/quota" :: ["https://youtu.be/hits"])
       None None 0%nat
     = (4%nat, Throw (ApiError (Some 403) "quotaExceeded")).
Proof.
  pose proof (failure_policy nat http_URL Demo.videos_list Demo.search_list)
    as (_ & Hskip & Habort).
  split.
  - exact (Hskip ["https://youtu.be/pair"] "https://youtu.be/gone" ["https://youtu.be/hits"]
             None None 0%nat 2%nat Demo.pairItems "gone" 3%nat
             eq_refl eq_refl eq_refl eq_refl).
  - exact (Habort ["https://youtu.be/pair"] "https://youtu.be/quota"
             ["https://youtu.be/hits"] None None 0%nat 2%nat Demo.pairItems "quota" 3%nat
             (Demo.video "quota" "PT12M" "Source") 4%nat
             (ApiError (Some 403) "quotaExceeded")
             eq_refl eq_refl eq_refl eq_refl eq_refl).
Defined.

(* ================================================================== *)
(** * Further properties of the code *)
(* ================================================================== *)

(** ** The duration parser on arbitrary strings *)

Lemma after_PT_includes (s : string) :
  is_Some (after_PT s) <-> JS.includes "PT" s = true.
Proof.
  induction s as [|c s IH].
  - split; [intros [r H]; discriminate | discriminate].
  - cbn [after_PT JS.includes].
    destruct (String.prefix "PT" (String c s)); cbn [orb].
    + split; [reflexivity | eauto].
    + exact IH.
Qed.

Lemma span_digits_prefix (s : string) :
  fst (JS.span_digits s) = "" \/ digits_only (fst (JS.span_digits s)) = true.
Proof.
  induction s as [|c s IH]; cbn [JS.span_digits]; [now left|].
  destruct (JS.isDigit c) eqn:Hc; [|now left].
  destruct (JS.span_digits s) as [d r]. cbn [fst] in *. right.
  destruct IH as [-> | IH]; [exact Hc|].
  destruct d as [|c' d']; [discriminate|].
  change (JS.isDigit c && digits_only (String c' d') = true).
  now rewrite Hc, IH.
Qed.

(** What a group captures is a run of digits and the unit letter. *)
Lemma optional_group_captured (X : ascii) (s g r : string) :
  optional_group X s = (Some g, r) ->
  exists d, digits_only d = true /\ g = d +:+ String X "".
Proof.
  unfold optional_group. pose proof (span_digits_prefix s) as Hd.
  destruct (JS.span_digits s) as [[|d ds] [|c r']]; cbn [fst] in Hd; try discriminate.
  destruct (Ascii.eqb c X); [|discriminate].
  intros [= <- <-]. exists (String d ds). split; [|reflexivity].
  destruct Hd as [Hd | Hd]; [discriminate | exact Hd].
Qed.

Lemma captured_value (X : ascii) (s : string) (g : option string) (r : string) :
  optional_group X s = (g, r) ->
  JS.isDigit X = false -> X <> "x"%char -> X <> "X"%char ->
  match g with
  | Some t => nonnegative (JS.parseInt t)
  | None => True
  end.
Proof.
  intros Hg HX Hx1 Hx2. destruct g as [t|]; [|exact I].
  apply optional_group_captured in Hg as (d & Hd & ->).
  rewrite parseInt_group by assumption.
  apply round_nonnegative, decimal_value_nonneg; [lia | now left].
Qed.

Lemma nonnegative_mul (x : JS.number) (k : Z) :
  0 < k -> nonnegative x -> nonnegative (JS.mul x (JS.Num k)).
Proof.
  intros Hk [-> | (n & -> & Hn)]; cbn [JS.mul JS.signum].
  - left. rewrite Z.sgn_pos by exact Hk. reflexivity.
  - apply round_nonnegative. nia.
Qed.

Lemma nonnegative_add (x y : JS.number) :
  nonnegative x -> nonnegative y -> nonnegative (JS.add x y).
Proof.
  intros [-> | (n & -> & Hn)] [-> | (m & -> & Hm)]; cbn [JS.add];
    try (now left).
  apply round_nonnegative. lia.
Qed.

Lemma parseDuration_with_PT (s : string) :
  occurs_in "PT" s -> exists x, parseDuration (Some s) = Ok x /\ nonnegative x.
Proof.
  intros Hocc. apply includes_iff, after_PT_includes in Hocc as [rest Hrest].
  unfold parseDuration, duration_match. rewrite Hrest.
  destruct (optional_group "H" rest) as [g1 s1] eqn:E1.
  destruct (optional_group "M" s1) as [g2 s2] eqn:E2.
  destruct (optional_group "S" s2) as [g3 s3] eqn:E3.
  apply captured_value in E1; [| reflexivity | discriminate | discriminate].
  apply captured_value in E2; [| reflexivity | discriminate | discriminate].
  apply captured_value in E3; [| reflexivity | discriminate | discriminate].
  assert (H0 : nonnegative (JS.Num 0)) by (right; exists 0; split; [reflexivity | lia]).
  eexists. split; [reflexivity|].
  destruct g1 as [t1|], g2 as [t2|], g3 as [t3|];
    repeat first [ exact H0 | assumption
                 | apply nonnegative_add | apply nonnegative_mul; [lia|] ].
Qed.

Lemma parseDuration_without_PT (duration : option string) :
  match duration with
  | Some s => ~ occurs_in "PT" s
  | None => True
  end ->
  exists m, parseDuration duration = Throw (TypeError m).
Proof.
  destruct duration as [s|]; [|eauto]. intros Hno.
  unfold parseDuration, duration_match.
  destruct (after_PT s) as [rest|] eqn:Hrest; [|eauto].
  exfalso. apply Hno, includes_iff, after_PT_includes. eauto.
Qed.

(** X1. On a string in which [PT] occurs, whatever surrounds it,
    [parseDuration] returns a number that is neither [NaN] nor negative: an
    integer that is not negative, or [Infinity] (which a run of 310 digits
    already gives); on a string without [PT] it throws a [TypeError] (the
    match is [null]).  A duration with a day part such as [P1DT2H3M] is of
    the second kind. *)
Theorem parseDuration_domain (s : string) :
  (occurs_in "PT" s ->
   exists x, parseDuration (Some s) = Ok x
     /\ (x = JS.Infinity \/ exists n, x = JS.Num n /\ 0 <= n))
  /\ (~ occurs_in "PT" s -> exists m, parseDuration (Some s) = Throw (TypeError m))
  /\ (exists m, parseDuration (Some "P1DT2H3M") = Throw (TypeError m))
  /\ parseDuration (Some ("PT1" +:+ String.concat "" (List.repeat "0" 309) +:+ "S"))
     = Ok JS.Infinity.
Proof.
  split; [| split; [| split]].
  - apply parseDuration_with_PT.
  - intros Hno. now apply (parseDuration_without_PT (Some s)).
  - eexists. reflexivity.
  - vm_compute. reflexivity.
Qed.

(** The theorem at a duration with text around the [PT] part. *)
Lemma parseDuration_domain_witness :
  exists x, parseDuration (Some "about PT4M13S long") = Ok x
    /\ (x = JS.Infinity \/ exists n, x = JS.Num n /\ 0 <= n).
Proof.
  apply (proj1 (parseDuration_domain "about PT4M13S long")).
  apply includes_iff. reflexivity.
Defined.

(** ** More on the URL-list orchestrator *)

Lemma Array_filter_throw_some {A} (p : A -> result bool) (l : list A) (x : A) :
  In x l -> (exists e, p x = Throw e) -> exists e, Array_filter p l = Throw e.
Proof.
  induction l as [|y l IH]; intros Hin Hx; [contradiction|].
  cbn [Array_filter]. destruct (p y) as [b|e] eqn:Hy; [|eauto].
  destruct Hin as [-> | Hin].
  - destruct Hx as [e Hx]. congruence.
  - destruct (IH Hin Hx) as [e ->]. eauto.
Qed.

Lemma Array_filter_none {A} (p : A -> result bool) (l : list A) :
  Forall (fun x => p x = Ok false) l -> Array_filter p l = Ok [].
Proof.
  induction 1 as [|x l Hx _ IH]; [reflexivity|].
  cbn [Array_filter]. now rewrite Hx, IH.
Qed.

Lemma isYoutubeShort_malformed (video : VideoItem) (cd : ContentDetails) (sn : Snippet) :
  contentDetails video = Some cd -> snippet video = Some sn ->
  match duration cd with
  | Some s => ~ occurs_in "PT" s
  | None => True
  end ->
  exists m, isYoutubeShort video = Throw (TypeError m).
Proof.
  intros Hcd Hsn Hd. unfold isYoutubeShort. rewrite Hcd, Hsn.
  destruct (parseDuration_without_PT _ Hd) as [m ->]. eauto.
Qed.

Section MoreServiceProperties.
Variable World : Type.
Variable new_URL : string -> option URL.
Variable videos_list : VideosList.params -> World -> World * Settled.
Variable search_list : SearchList.params -> World -> World * Settled.

Local Abbreviation loop := (results_loop new_URL videos_list search_list).
Local Abbreviation process := (processVideoUrls new_URL videos_list search_list).

(** X2. One candidate with [contentDetails] and [snippet] whose duration is
    missing or holds no [PT] (a video of a day or more, [P1DT2H]) makes the
    filter throw, and the whole of [processVideoUrls] fails with that
    [TypeError], whatever the other candidates are. *)
Theorem malformed_duration_aborts (videoUrls : list string)
    (apiKey pageToken : option string) (w w' : World) (pool : list VideoItem)
    (video : VideoItem) (cd : ContentDetails) (sn : Snippet) :
  loop videoUrls apiKey pageToken [] w = (w', Ok pool) ->
  In video pool ->
  contentDetails video = Some cd -> snippet video = Some sn ->
  match duration cd with
  | Some s => ~ occurs_in "PT" s
  | None => True
  end ->
  exists m, process videoUrls apiKey pageToken w = (w', Throw (TypeError m)).
Proof.
  intros Hloop Hin Hcd Hsn Hd. rewrite processVideoUrls_cases, Hloop.
  destruct pool as [|v0 rest]; [contradiction|].
  destruct (isYoutubeShort_malformed video cd sn Hcd Hsn Hd) as [m Hm].
  destruct (Array_filter_throw_some notShort (v0 :: rest) video Hin) as [e He].
  { unfold notShort. rewrite Hm. eauto. }
  rewrite He. apply Array_filter_throws in He as (x & _ & Hx).
  unfold notShort in Hx. destruct (isYoutubeShort x) as [b|e'] eqn:Hs; [discriminate|].
  injection Hx as ->. apply isYoutubeShort_throws in Hs as [m' ->]. eauto.
Qed.

(** X3. The related-videos search asks for [part: 'snippet'] only.  When the
    candidates carry no more than that (no [contentDetails]), every one of
    them is classified short-form and [processVideoUrls] returns a page
    without items, however many candidates there are. *)
Theorem snippet_only_candidates (videoUrls : list string)
    (apiKey pageToken : option string) (w w' : World) (pool : list VideoItem) :
  loop videoUrls apiKey pageToken [] w = (w', Ok pool) ->
  pool <> [] ->
  Forall (fun video => contentDetails video = None) pool ->
  (forall videoDetails, SearchList.part (relatedParams videoDetails pageToken) = "snippet")
  /\ process videoUrls apiKey pageToken w
     = (w', Ok {| items := []; nextPageToken := pageToken |}).
Proof.
  intros Hloop Hne Hall. split; [reflexivity|].
  rewrite processVideoUrls_cases, Hloop.
  destruct pool as [|v0 rest]; [congruence|].
  rewrite Array_filter_none; [reflexivity|].
  eapply Forall_impl; [exact Hall|]. intros v Hv.
  unfold notShort, isYoutubeShort. now rewrite Hv.
Qed.

Lemma results_loop_usable (videoUrls : list string) (apiKey pageToken : option string) :
  forall (results : list VideoItem) (w : World),
    loop videoUrls apiKey pageToken results w
    = loop (List.filter (usable new_URL) videoUrls) apiKey pageToken results w.
Proof.
  induction videoUrls as [|url rest IH]; intros results w; [reflexivity|].
  cbn [List.filter]. unfold usable at 1.
  destruct (extractVideoId new_URL url) as [[|c s]|] eqn:Hid; cbn [truthy_string].
  - rewrite results_loop_step, Hid. apply IH.
  - rewrite !results_loop_step, Hid.
    destruct (videos_list _ w) as [w1 [response|code message|code message]]; [|apply IH..].
    destruct (data_items response) as [[|videoDetails others]|]; try apply IH.
    destruct (search_list _ w1) as [w2 [related|code message|code message]]; [|reflexivity..].
    destruct (data_items related) as [[|item more]|]; try reflexivity.
    apply IH.
  - rewrite results_loop_step, Hid. apply IH.
Qed.

(** X4. URLs from which no video id can be taken (unparsable, another host,
    an empty or missing [v]) do not count: [processVideoUrls] behaves on a
    list as on the list without them, with the same calls and the same
    result. *)
Theorem unusable_urls_ignored (videoUrls : list string)
    (apiKey pageToken : option string) (w : World) :
  process videoUrls apiKey pageToken w
  = process (List.filter (usable new_URL) videoUrls) apiKey pageToken w.
Proof.
  rewrite !processVideoUrls_cases. now rewrite <- results_loop_usable.
Qed.

(** X5. A page returned by [getRelatedVideos] is never empty; its items and
    its token are those of the answer of [search.list] to the request of
    lines 68-79.  The [apiKey] argument plays no part in that request. *)
Theorem getRelatedVideos_page (videoDetails : VideoItem)
    (apiKey pageToken : option string) (w w' : World) (page : ResultPage) :
  getRelatedVideos search_list videoDetails apiKey pageToken w = (w', Ok page) ->
  items page <> []
  /\ (exists response,
         search_list (relatedParams videoDetails pageToken) w = (w', Resolved response)
         /\ data_items response = Some (items page)
         /\ nextPageToken page = data_nextPageToken response)
  /\ (forall otherKey,
         getRelatedVideos search_list videoDetails otherKey pageToken w = (w', Ok page)).
Proof.
  rewrite getRelatedVideos_cases.
  destruct (search_list _ w) as [w1 [response|code message|code message]] eqn:Hcall;
    [|discriminate..].
  destruct (data_items response) as [[|item more]|] eqn:Hitems; try discriminate.
  intros [= <- <-]. cbn [items nextPageToken]. split; [discriminate | split].
  - exists response. auto.
  - intros otherKey. rewrite getRelatedVideos_cases, Hcall, Hitems. reflexivity.
Qed.

End MoreServiceProperties.

(** ** The URL handler *)

Lemma channelKeys_spec (videos : list VideoItem) :
  Forall (fun video => snippet video <> None) videos ->
  forall keys, NoDup keys ->
    exists keys', channelKeys videos keys = Ok keys'
      /\ NoDup keys'
      /\ forall k, k ∈ keys' <-> k ∈ keys \/ k ∈ map channel_of videos.
Proof.
  induction 1 as [|video videos Hv _ IH]; intros keys Hnd.
  - exists keys. split; [reflexivity | split; [exact Hnd|]].
    intros k. split; [tauto | intros [H | H]; [exact H | inversion H]].
  - cbn [channelKeys map]. unfold channel_of at 1.
    destruct (snippet video) as [sn|]; [|congruence].
    set (keys1 := if bool_decide (channelId sn ∈ keys) then keys
                  else keys ++ [channelId sn]).
    assert (H1 : NoDup keys1 /\ forall k, k ∈ keys1 <-> k ∈ keys \/ k = channelId sn).
    { unfold keys1. case_bool_decide as Hin.
      - split; [exact Hnd|]. intros k. split; [tauto | intros [H | ->]; assumption].
      - split.
        + apply NoDup_app. split; [exact Hnd | split; [|apply NoDup_singleton]].
          intros k Hk Hk'. apply list_elem_of_singleton in Hk' as ->. contradiction.
        + intros k. rewrite elem_of_app, list_elem_of_singleton. tauto. }
    destruct H1 as [Hnd1 Hmem1].
    destruct (IH keys1 Hnd1) as (keys' & Hrun & Hnd' & Hmem').
    exists keys'. split; [exact Hrun | split; [exact Hnd'|]].
    intros k. rewrite Hmem', Hmem1, elem_of_cons. tauto.
Qed.

Lemma remove_dups_length {A} `{EqDecision A} (l : list A) :
  (length (remove_dups l) <= length l)%nat
  /\ (l <> [] -> 1 <= length (remove_dups l))%nat.
Proof.
  split.
  - induction l as [|x l IH]; cbn [remove_dups]; [lia|].
    destruct (decide_rel elem_of x l); simpl; lia.
  - intros Hne. destruct l as [|x l]; [congruence|].
    assert (Hx : x ∈ remove_dups (x :: l)) by (apply elem_of_remove_dups; left).
    destruct (remove_dups (x :: l)); [inversion Hx | simpl; lia].
Qed.

(** The size of [channelStats] is the number of distinct channel ids. *)
Lemma channelKeys_distinct (videos : list VideoItem) :
  Forall (fun video => snippet video <> None) videos ->
  exists keys, channelKeys videos [] = Ok keys
    /\ length keys = length (remove_dups (map channel_of videos)).
Proof.
  intros Hall. destruct (channelKeys_spec videos Hall [] (NoDup_nil_2))
    as (keys & Hrun & Hnd & Hmem).
  exists keys. split; [exact Hrun|]. apply Permutation_length.
  apply NoDup_Permutation; [exact Hnd | apply NoDup_remove_dups |].
  intros k. rewrite Hmem, elem_of_remove_dups. split; [|tauto].
  intros [H | H]; [inversion H | exact H].
Qed.

Lemma not_short_has_snippet (video : VideoItem) :
  isYoutubeShort video = Ok false -> snippet video <> None.
Proof.
  unfold isYoutubeShort. destruct (contentDetails video); [|discriminate].
  destruct (snippet video); [discriminate | discriminate].
Qed.

Lemma no_usable_url (new_URL : string -> option URL) (urls : list string) :
  List.filter truthy_string (map (extractVideoId new_URL) urls) = []
  <-> Forall (fun url => usable new_URL url = false) urls.
Proof.
  induction urls as [|url urls IH]; [split; constructor|].
  cbn [map List.filter]. unfold usable in *.
  destruct (truthy_string (extractVideoId new_URL url)) eqn:Hu.
  - split; [discriminate | intros H; inversion H; congruence].
  - rewrite IH. split; [now constructor | intros H; now inversion H].
Qed.

Section HandlerProperties.
Variable World : Type.
Variable new_URL : string -> option URL.
Variable videos_list : VideosList.params -> World -> World * Settled.
Variable search_list : SearchList.params -> World -> World * Settled.
Variable YOUTUBE_API_KEY : option string.
Variable NODE_ENV : option string.

Local Abbreviation process := (processVideoUrls new_URL videos_list search_list).
Local Abbreviation handle :=
  (handleUrlInput new_URL videos_list search_list YOUTUBE_API_KEY NODE_ENV).

(** The handler once its three checks are passed. *)
Lemma handleUrlInput_checked (req : Request) (urls : list string) (w : World) :
  body_urls req = Some urls ->
  urls <> [] -> (length urls <= 5)%nat ->
  ~ Forall (fun url => usable new_URL url = false) urls ->
  handle req w =
  match process urls YOUTUBE_API_KEY (query_pageToken req) w with
  | (w', Ok result) =>
      match items result with
      | [] => (w', {| status := 404;
                      body := ErrorBody "No recommendations found. Try different videos."
                                None |})
      | _ =>
          match channelKeys (items result) [] with
          | Ok channelStats =>
              (w', {| status := 200;
                      body := RecommendationsBody (items result) (nextPageToken result)
                                (length (items result)) (length channelStats)
                                (videosPerChannel_of (length (items result))
                                   (length channelStats)) |})
          | Throw e =>
              (w', {| status := url_error_status e;
                      body := ErrorBody
                                (if bool_decide (error_code e = Some 403)
                                 then "YouTube API quota exceeded. Please try again later."
                                 else if bool_decide (error_code e = Some 404)
                                 then "One or more videos not found. They might be private or deleted."
                                 else "Failed to get recommendations")
                                (details_of NODE_ENV e) |})
          end
      end
  | (w', Throw e) =>
      (w', {| status := url_error_status e;
              body := ErrorBody
                        (if bool_decide (error_code e = Some 403)
                         then "YouTube API quota exceeded. Please try again later."
                         else if bool_decide (error_code e = Some 404)
                         then "One or more videos not found. They might be private or deleted."
                         else "Failed to get recommendations")
                        (details_of NODE_ENV e) |})
  end.
Proof.
  intros Hbody Hne Hlen Hids. unfold handleUrlInput. rewrite Hbody.
  destruct urls as [|url urls']; [congruence|].
  destruct (Nat.ltb_spec 5 (length (url :: urls'))) as [Hgt | _]; [lia|].
  destruct (List.filter truthy_string (map (extractVideoId new_URL) (url :: urls')))
    as [|i ids] eqn:Hf.
  { exfalso. apply Hids. now apply no_usable_url. }
  unfold bind, lift, ret, url_error_status.
  destruct (process (url :: urls') YOUTUBE_API_KEY (query_pageToken req) w)
    as [w' [result|e]].
  - destruct (items result) as [|v rest]; [reflexivity|].
    destruct (channelKeys (v :: rest) []) as [keys|e]; [reflexivity|].
    repeat case_bool_decide; reflexivity.
  - repeat case_bool_decide; reflexivity.
Qed.

Lemma url_error_status_cases (e : error) :
  url_error_status e = 403 \/ url_error_status e = 404 \/ url_error_status e = 500.
Proof. unfold url_error_status. repeat case_bool_decide; auto. Qed.

(** The status of the handler on each of its paths. *)
Lemma handleUrlInput_paths (req : Request) (w : World) :
  (fst (handle req w) = w /\ status (snd (handle req w)) = 400
   /\ (exists message, body (snd (handle req w)) = ErrorBody message None)
   /\ (body_urls req = None
       \/ exists urls, body_urls req = Some urls
            /\ (urls = [] \/ (5 < length urls)%nat
                \/ Forall (fun url => usable new_URL url = false) urls)))
  \/ (status (snd (handle req w)) <> 400
      /\ (status (snd (handle req w)) = 200 \/ status (snd (handle req w)) = 403
          \/ status (snd (handle req w)) = 404 \/ status (snd (handle req w)) = 500)
      /\ exists urls, body_urls req = Some urls /\ urls <> [] /\ (length urls <= 5)%nat
           /\ ~ Forall (fun url => usable new_URL url = false) urls).
Proof.
  destruct (body_urls req) as [urls|] eqn:Hbody.
  2:{ left. unfold handleUrlInput. rewrite Hbody. cbn. eauto 10. }
  destruct urls as [|url urls'].
  { left. unfold handleUrlInput. rewrite Hbody. cbn. eauto 10. }
  destruct (Nat.ltb_spec 5 (length (url :: urls'))) as [Hgt | Hle].
  { left. unfold handleUrlInput. rewrite Hbody.
    destruct (Nat.ltb_spec 5 (length (url :: urls'))); [|lia]. cbn. eauto 10. }
  destruct (List.filter truthy_string (map (extractVideoId new_URL) (url :: urls')))
    as [|i ids] eqn:Hf.
  { left. pose proof (proj1 (no_usable_url new_URL (url :: urls')) Hf) as Hall.
    unfold handleUrlInput. rewrite Hbody.
    destruct (Nat.ltb_spec 5 (length (url :: urls'))); [lia|]. rewrite Hf. cbn. eauto 10. }
  right.
  assert (Hnot : ~ Forall (fun u => usable new_URL u = false) (url :: urls')).
  { intros Hall. apply no_usable_url in Hall. congruence. }
  rewrite (handleUrlInput_checked req (url :: urls') w Hbody ltac:(discriminate) Hle Hnot).
  assert (Hgoal : forall r : World * Response,
             (status (snd r) = 200 \/ status (snd r) = 403 \/ status (snd r) = 404
              \/ status (snd r) = 500) ->
             status (snd r) <> 400
             /\ (status (snd r) = 200 \/ status (snd r) = 403 \/ status (snd r) = 404
                 \/ status (snd r) = 500)
             /\ exists urls, Some (url :: urls') = Some urls /\ urls <> []
                  /\ (length urls <= 5)%nat
                  /\ ~ Forall (fun u => usable new_URL u = false) urls).
  { intros r Hr. split; [lia | split; [exact Hr|]].
    exists (url :: urls'). repeat split; auto; discriminate. }
  apply Hgoal.
  destruct (process (url :: urls') YOUTUBE_API_KEY (query_pageToken req) w)
    as [w' [result|e]].
  - destruct (items result) as [|v rest]; [cbn; tauto|].
    destruct (channelKeys (v :: rest) []) as [keys|e]; [cbn; tauto|].
    cbn [snd status]. destruct (url_error_status_cases e) as [-> | [-> | ->]]; tauto.
  - cbn [snd status]. destruct (url_error_status_cases e) as [-> | [-> | ->]]; tauto.
Qed.

(** X6. [handleUrlInput] answers 400 exactly when [urls] is not an array, is
    empty, has more than 5 elements, or holds no URL with a usable video id;
    it then makes no call to the API.  Its status is always one of 200, 400,
    403, 404 and 500. *)
Theorem handleUrlInput_rejects (req : Request) (w : World) :
  (status (snd (handle req w)) = 400
   <-> body_urls req = None
       \/ exists urls, body_urls req = Some urls
            /\ (urls = [] \/ (5 < length urls)%nat
                \/ Forall (fun url => usable new_URL url = false) urls))
  /\ (status (snd (handle req w)) = 400 -> fst (handle req w) = w)
  /\ (status (snd (handle req w)) = 200 \/ status (snd (handle req w)) = 400
      \/ status (snd (handle req w)) = 403 \/ status (snd (handle req w)) = 404
      \/ status (snd (handle req w)) = 500).
Proof.
  destruct (handleUrlInput_paths req w)
    as [(Hw & Hs & _ & Hcond) | (Hs & Hset & urls & Hbody & Hne & Hlen & Hnot)].
  - repeat split; auto.
  - split; [| split; [congruence | tauto]].
    split; [congruence|].
    intros [Hnone | (urls' & Hbody' & Hc)]; [congruence|].
    rewrite Hbody in Hbody'. injection Hbody' as <-.
    destruct Hc as [-> | [Hgt | Hall]]; [congruence | lia | contradiction].
Qed.

(** X7. When the service returns a page with items, [handleUrlInput] answers
    200 with these items, the page token of the request, [total] their
    number, and [uniqueChannels] the number of distinct channel ids among
    them, between 1 and [total], which is at most 15. *)
Theorem handleUrlInput_success (req : Request) (urls : list string) (w w' : World)
    (page : ResultPage) :
  body_urls req = Some urls ->
  (length urls <= 5)%nat ->
  process urls YOUTUBE_API_KEY (query_pageToken req) w = (w', Ok page) ->
  items page <> [] ->
  let total := length (items page) in
  let uniqueChannels := length (remove_dups (map channel_of (items page))) in
  handle req w
  = (w', {| status := 200;
            body := RecommendationsBody (items page) (query_pageToken req) total
                      uniqueChannels (videosPerChannel_of total uniqueChannels) |})
  /\ (1 <= uniqueChannels <= total)%nat /\ (total <= 15)%nat.
Proof.
  intros Hbody Hlen Hrun Hitems total uniqueChannels.
  destruct (processVideoUrls_returns _ _ _ _ _ _ _ _ _ _ Hrun)
    as (pool & filtered & Hloop & Hne & Hf & Hpage).
  assert (Hurls : urls <> []).
  { intros ->. cbn [results_loop] in Hloop. unfold ret in Hloop. congruence. }
  assert (Hnot : ~ Forall (fun url => usable new_URL url = false) urls).
  { intros Hall. apply no_usable_url in Hall.
    rewrite (results_loop_no_ids _ _ _ _ _ _ _ _ _ Hall) in Hloop. congruence. }
  rewrite (handleUrlInput_checked req urls w Hbody Hurls Hlen Hnot), Hrun.
  destruct (Array_filter_Ok _ _ _ Hf) as (_ & Hall & _).
  assert (Hsn : Forall (fun video => snippet video <> None) (items page)).
  { rewrite Hpage. cbn [items]. apply Forall_take.
    eapply Forall_impl; [exact Hall|]. intros v Hv.
    apply not_short_has_snippet. now apply notShort_true. }
  destruct (channelKeys_distinct (items page) Hsn) as (keys & Hkeys & Hcount).
  rewrite Hkeys, Hcount.
  destruct (remove_dups_length (map channel_of (items page))) as [Hle Hge].
  split; [| split].
  - destruct (items page) as [|v rest] eqn:Hi; [congruence|].
    rewrite Hpage at 1. cbn [nextPageToken]. reflexivity.
  - unfold uniqueChannels, total. rewrite length_map in Hle. split; [|exact Hle].
    apply Hge. destruct (items page); [congruence | discriminate].
  - unfold total. rewrite Hpage. cbn [items]. rewrite length_take. unfold MAX_RESULTS. lia.
Qed.

(** X8. When the service throws, [handleUrlInput] answers 403 for a thrown
    value with [code] 403, 404 for [code] 404 and 500 otherwise; the errors
    of the service itself ([No recommendations found],
    [No related videos found], a [TypeError] of the filter) carry no code
    and get 500. *)
Theorem handleUrlInput_failure (req : Request) (urls : list string) (w w' : World)
    (e : error) :
  body_urls req = Some urls ->
  (length urls <= 5)%nat ->
  Exists (fun url => usable new_URL url = true) urls ->
  process urls YOUTUBE_API_KEY (query_pageToken req) w = (w', Throw e) ->
  fst (handle req w) = w'
  /\ status (snd (handle req w)) = url_error_status e
  /\ (error_code e = Some 403 -> status (snd (handle req w)) = 403)
  /\ (error_code e = Some 404 -> status (snd (handle req w)) = 404)
  /\ ((exists m, e = Error m \/ e = TypeError m) -> status (snd (handle req w)) = 500).
Proof.
  intros Hbody Hlen Hex Hrun.
  assert (Hurls : urls <> []) by (intros ->; inversion Hex).
  assert (Hnot : ~ Forall (fun url => usable new_URL url = false) urls).
  { intros Hall. apply Exists_exists in Hex as (u & Hu & Hus).
    rewrite Forall_forall in Hall. specialize (Hall u Hu). congruence. }
  rewrite (handleUrlInput_checked req urls w Hbody Hurls Hlen Hnot), Hrun.
  cbn [fst snd status]. split; [reflexivity | split; [reflexivity|]].
  unfold url_error_status. repeat split.
  - intros ->. now rewrite bool_decide_eq_true_2.
  - intros ->. now rewrite bool_decide_eq_false_2, bool_decide_eq_true_2.
  - intros (m & [-> | ->]); reflexivity.
Qed.

End HandlerProperties.

(** ** The first item of the shuffle *)

Section ShuffleHead.
Context {A : Type}.
Variable truthy : A -> bool.
Variable random : nat -> Q.

Lemma shuffle_head (videos : list A) :
  Forall (fun x => truthy x = true) videos ->
  videos <> [] ->
  exists x rest,
    shuffleWithRelevance truthy random videos = x :: rest
    /\ x ∈ take (ceil_third (length videos)) videos.
Proof.
  intros Hall Hne. destruct videos as [|v vs]; [congruence|].
  unfold shuffleWithRelevance.
  set (n := length (v :: vs)). set (cs := ceil_third n).
  assert (Hcs : (0 < cs)%nat) by (apply ceil_third_pos; unfold n; simpl; lia).
  assert (Hchunks : exists tail,
             chunk_loop n 0 cs (v :: vs) = take cs (v :: vs) :: tail).
  { unfold n. cbn [length chunk_loop]. cbn [Nat.ltb Nat.leb].
    eexists. f_equal. unfold slice. rewrite drop_0. f_equal. lia. }
  destruct Hchunks as [tail ->].
  pose proof (shuffle_chunks_Permutation random (take cs (v :: vs) :: tail) 0) as Hperm.
  destruct (shuffle_chunks random (take cs (v :: vs) :: tail) 0) as [chunks' k].
  cbn [fst] in Hperm. inversion Hperm as [|c1' c1 tail' tail0 Hc1 Htail]; subst.
  assert (Hin : forall y, y ∈ c1' -> y ∈ take cs (v :: vs)).
  { intros y Hy. now rewrite <- Hc1. }
  destruct c1' as [|y ys].
  { apply Permutation_nil_l in Hc1. destruct cs; [lia | discriminate]. }
  assert (Hy : truthy y = true).
  { assert (Hy0 : y ∈ take cs (v :: vs)) by (apply Hin; left).
    apply elem_of_take in Hy0 as (i & Hi & _).
    rewrite Forall_forall in Hall. apply Hall. eapply list_elem_of_lookup_2, Hi. }
  unfold interleave. cbn [maxLength foldr length].
  destruct (Nat.max (S (length ys))
              (foldr (fun chunk m => Nat.max (length chunk) m) 0%nat tail'))
    as [|m] eqn:Hmax; [lia|].
  cbn [seq flat_map]. unfold column at 1. cbn [flat_map]. unfold pushed at 1.
  change ((y :: ys) !! 0%nat) with (Some y). cbv beta iota. rewrite Hy. cbn [app].
  eexists y, _. split; [reflexivity|]. apply Hin. left.
Qed.

End ShuffleHead.

(** X9. The first item [shuffleWithRelevance] returns is one of the first
    [ceil(n / 3)] items of its input: the top third of a ranked list stays on
    top. *)
Theorem shuffle_first_of_top_third (random : nat -> Q) (videos : list VideoItem) :
  (forall n, (0 <= random n)%Q /\ (random n < 1)%Q) ->
  videos <> [] ->
  exists first rest,
    shuffleWithRelevance object_truthy random videos = first :: rest
    /\ In first (take (ceil_third (length videos)) videos).
Proof.
  intros _ Hne.
  destruct (shuffle_head object_truthy random videos) as (x & rest & Heq & Hin).
  - apply Forall_forall. reflexivity.
  - exact Hne.
  - exists x, rest. split; [exact Heq | now apply list_elem_of_In].
Qed.

(** The theorem at twenty candidates. *)
Lemma shuffle_first_of_top_third_witness :
  exists first rest,
    shuffleWithRelevance object_truthy Demo.half Demo.candidates = first :: rest
    /\ In first (take 7 Demo.candidates).
Proof.
  refine (shuffle_first_of_top_third Demo.half Demo.candidates _ _).
  - intros n. unfold Demo.half, Qle, Qlt. simpl. lia.
  - discriminate.
Defined.

(** ** More on the watch-history orchestrator *)

Lemma Array_sort_of_sorted (Date_parse : string -> JS.number) (l : list HistoryEntry) :
  StronglySorted (newest_first Date_parse) l ->
  Array_sort (byMostRecent Date_parse) l = l.
Proof.
  induction 1 as [|x l Hs IH Hx]; [reflexivity|].
  change (Array_sort (byMostRecent Date_parse) (x :: l))
    with (sort_insert (byMostRecent Date_parse) x
            (Array_sort (byMostRecent Date_parse) l)).
  rewrite IH. destruct l as [|y l']; [reflexivity|].
  cbn [sort_insert]. inversion Hx as [|? ? (tx & ty & Htx & Hty & Hle) _]; subst.
  unfold byMostRecent. rewrite Htx, Hty.
  change (number_sub (JS.Num ty) (JS.Num tx)) with (JS.round (ty - tx)).
  rewrite gt_zero_round.
  destruct (Z.ltb_spec 0 (ty - tx)); [lia | reflexivity].
Qed.

(** X10. A history whose watch entries are already listed from the most
    recent is not reordered: the entries the service goes on with are the
    first 10 watch entries in the order of the file, entries of equal date
    included. *)
Theorem recentEntries_of_sorted (Date_parse : string -> JS.number)
    (watchHistory : list HistoryEntry) :
  StronglySorted (newest_first Date_parse) (List.filter isWatchEntry watchHistory) ->
  recentEntries Date_parse watchHistory = take 10 (List.filter isWatchEntry watchHistory).
Proof.
  intros Hs. unfold recentEntries. now rewrite Array_sort_of_sorted.
Qed.

(** The theorem at a history of five entries in the order of their dates. *)
Lemma recentEntries_of_sorted_witness :
  recentEntries Demo.Date_parse DemoUpload.sortedHistory
  = take 10 (List.filter isWatchEntry DemoUpload.sortedHistory).
Proof.
  apply recentEntries_of_sorted.
  let l := eval vm_compute in (List.filter isWatchEntry DemoUpload.sortedHistory) in
  change (List.filter isWatchEntry DemoUpload.sortedHistory) with l.
  repeat first [apply SSorted_nil | apply SSorted_cons | apply List.Forall_nil
               | apply List.Forall_cons];
    (do 2 eexists; split; [reflexivity | split; [reflexivity | lia]]).
Defined.

Lemma addVideoId_usable (new_URL : string -> option URL) (videoIds : list string)
    (entry : HistoryEntry) :
  addVideoId new_URL videoIds entry
  = match usable_id new_URL entry with
    | Some videoId => Set_add videoId videoIds
    | None => videoIds
    end.
Proof.
  unfold addVideoId, usable_id.
  now destruct (extractVideoId new_URL (default "" (titleUrl entry))) as [[|c s]|].
Qed.

Lemma first_occurrences_snoc (l : list string) (x : string) :
  first_occurrences (l ++ [x])
  = if bool_decide (x ∈ first_occurrences l) then first_occurrences l
    else first_occurrences l ++ [x].
Proof.
  unfold first_occurrences. rewrite reverse_snoc. cbn [remove_dups].
  destruct (decide_rel elem_of x (reverse l)) as [Hin | Hnin].
  - rewrite bool_decide_eq_true_2; [reflexivity|].
    now rewrite elem_of_reverse, elem_of_remove_dups.
  - rewrite bool_decide_eq_false_2.
    + now rewrite reverse_cons.
    + now rewrite elem_of_reverse, elem_of_remove_dups.
Qed.

(** X11. The ids [processTakeoutFile] hands on are the usable ids of the
    entries it visits, each once, at the place of its first occurrence: the
    most recently watched video comes first. *)
Theorem collectIds_first_occurrences (new_URL : string -> option URL)
    (entries : list HistoryEntry) :
  collectIds new_URL entries = first_occurrences (omap (usable_id new_URL) entries).
Proof.
  unfold collectIds. induction entries as [|e entries IH] using rev_ind; [reflexivity|].
  rewrite fold_left_app. cbn [fold_left]. rewrite IH, addVideoId_usable, omap_app.
  destruct (usable_id new_URL e) as [videoId|] eqn:Hu.
  - replace (omap (usable_id new_URL) [e]) with [videoId] by (cbn; now rewrite Hu).
    now rewrite first_occurrences_snoc.
  - replace (omap (usable_id new_URL) [e]) with (@nil string) by (cbn; now rewrite Hu).
    now rewrite app_nil_r.
Qed.

Lemma collect_nothing (new_URL : string -> option URL) (entries : list HistoryEntry) :
  Forall (fun e => usable_id new_URL e = None) entries ->
  forall videoIds, fold_left (addVideoId new_URL) entries videoIds = videoIds.
Proof.
  induction 1 as [|e entries He _ IH]; intros videoIds; [reflexivity|].
  cbn [fold_left]. rewrite addVideoId_usable, He. apply IH.
Qed.

Lemma recentEntries_watched (Date_parse : string -> JS.number)
    (watchHistory : list HistoryEntry) (e : HistoryEntry) :
  e ∈ recentEntries Date_parse watchHistory ->
  In e watchHistory /\ isWatchEntry e = true.
Proof.
  unfold recentEntries. intros He.
  apply elem_of_take in He as (i & Hi & _). apply list_elem_of_lookup_2 in Hi.
  rewrite Array_sort_Permutation in Hi. now apply list_elem_of_In, filter_In in Hi.
Qed.

(** X12. A history in which no watch page yields a video id (in particular
    one without any [youtube.com/watch] entry) makes [processTakeoutFile]
    throw [No recommendations found] without a single call to the API. *)
Theorem processTakeoutFile_without_ids (World : Type) (new_URL : string -> option URL)
    (videos_list : VideosList.params -> World -> World * Settled)
    (search_list : SearchList.params -> World -> World * Settled)
    (Date_parse : string -> JS.number) (watchHistory : list HistoryEntry)
    (apiKey : option string) (w : World) :
  (forall e, In e watchHistory -> isWatchEntry e = true -> usable_id new_URL e = None) ->
  processTakeoutFile new_URL videos_list search_list Date_parse watchHistory apiKey w
  = (w, Throw (Error "No recommendations found")).
Proof.
  intros Hnone. unfold processTakeoutFile, takeoutUrls, collectIds.
  rewrite collect_nothing; [reflexivity|].
  apply Forall_forall. intros e He.
  apply recentEntries_watched in He as [Hin Hw]. now apply Hnone.
Qed.

(** The theorem at a history of a playlist and a channel page. *)
Lemma processTakeoutFile_without_ids_witness :
  processTakeoutFile http_URL Demo.videos_list Demo.search_list Demo.Date_parse
    DemoUpload.playlists None 7%nat
  = (7%nat, Throw (Error "No recommendations found")).
Proof.
  apply processTakeoutFile_without_ids.
  intros e [<- | [<- | []]]; discriminate.
Defined.

(** ** The upload handler *)

Section UploadProperties.
Variable World : Type.
Variable new_URL : string -> option URL.
Variable videos_list : VideosList.params -> World -> World * Settled.
Variable search_list : SearchList.params -> World -> World * Settled.
Variable Date_parse : string -> JS.number.
Variable JSON_parse : string -> option JSON.
Variable YOUTUBE_API_KEY : option string.
Variable NODE_ENV : option string.

Local Abbreviation takeout :=
  (processTakeoutFile new_URL videos_list search_list Date_parse).
Local Abbreviation upload :=
  (handleFileUpload new_URL videos_list search_list Date_parse JSON_parse
     YOUTUBE_API_KEY NODE_ENV).

Lemma uploadFailure_status (e : error) :
  upload_status (uploadFailure NODE_ENV e)
  = if instanceof_SyntaxError e then 400
    else if bool_decide (error_code e = Some 403) then 403 else 500.
Proof.
  unfold uploadFailure. destruct (instanceof_SyntaxError e); [reflexivity|].
  now case_bool_decide.
Qed.

Lemma instanceof_SyntaxError_iff (e : error) :
  instanceof_SyntaxError e = true <-> exists code message, e = SyntaxError code message.
Proof.
  destruct e; cbn; split; try discriminate; eauto; now intros (? & ? & [=]).
Qed.

(** The entries the filter of lines 114-121 keeps. *)
Lemma validEntry_spec (entry : JSON) (e : HistoryEntry) :
  validEntry entry = Some e
  <-> exists fields u t,
        entry = JObject fields
        /\ JSON_get "titleUrl" fields = Some (JString u) /\ u <> ""
        /\ JSON_get "time" fields = Some (JString t) /\ t <> ""
        /\ e = {| titleUrl := Some u; time := Some t |}.
Proof.
  split.
  - destruct entry as [| | | |l|fields]; try discriminate. cbn [validEntry].
    destruct (JSON_get "titleUrl" fields) as [[| | |[|a u]| |]|] eqn:Hu;
      try discriminate.
    destruct (JSON_get "time" fields) as [[| | |[|b t]| |]|] eqn:Ht; try discriminate.
    intros [= <-]. exists fields, (String a u), (String b t).
    split; [reflexivity|]. split; [exact Hu|]. split; [discriminate|].
    split; [exact Ht|]. split; [discriminate | reflexivity].
  - intros (fields & u & t & -> & Hu & Hune & Ht & Htne & ->). cbn [validEntry].
    rewrite Hu, Ht. destruct u as [|a u]; [congruence|].
    now destruct t as [|b t]; [congruence|].
Qed.

(** No element passes the filter. *)
Lemma no_valid_entry (l : list JSON) :
  omap validEntry l = []
  <-> forall entry fields u t,
        In entry l -> entry = JObject fields ->
        JSON_get "titleUrl" fields = Some (JString u) ->
        JSON_get "time" fields = Some (JString t) ->
        u = "" \/ t = "".
Proof.
  induction l as [|x l IH].
  - split; [intros _ ? ? ? ? [] | reflexivity].
  - change (omap validEntry (x :: l))
      with (match validEntry x with
            | Some e => e :: omap validEntry l
            | None => omap validEntry l
            end).
    destruct (validEntry x) as [e|] eqn:Hx.
    + split; [discriminate|]. intros H.
      apply validEntry_spec in Hx as (fields & u & t & -> & Hu & Hune & Ht & Htne & _).
      destruct (H (JObject fields) fields u t (or_introl eq_refl) eq_refl Hu Ht);
        contradiction.
    + rewrite IH. split.
      * intros H entry fields u t [<- | Hin] -> Hu Ht;
          [|exact (H _ _ _ _ Hin eq_refl Hu Ht)].
        destruct (string_dec u "") as [|Hune]; [now left|].
        destruct (string_dec t "") as [|Htne]; [now right|].
        assert (validEntry (JObject fields) = Some {| titleUrl := Some u; time := Some t |})
          as Hsome by (apply validEntry_spec; eauto 10).
        congruence.
      * intros H entry fields u t Hin. apply H. now right.
Qed.

(** The handler once the file holds valid entries. *)
Lemma handleFileUpload_checked (text : string) (watchHistory : list JSON) (w : World) :
  JSON_parse text = Some (JArray watchHistory) ->
  omap validEntry watchHistory <> [] ->
  upload (Some text) w =
  match takeout (omap validEntry watchHistory) YOUTUBE_API_KEY w with
  | (w', Ok result) =>
      match channelKeys (items result) [] with
      | Ok channelCounts =>
          (w', {| upload_status := 200;
                  upload_body :=
                    UploadRecommendations (items result) (nextPageToken result)
                      (length (items result)) (length (omap validEntry watchHistory))
                      (length channelCounts)
                      (videosPerChannel_upload (length (items result))
                         (length channelCounts)) |})
      | Throw e => (w', uploadFailure NODE_ENV e)
      end
  | (w', Throw e) => (w', uploadFailure NODE_ENV e)
  end.
Proof.
  intros Hparse Hvalid. unfold handleFileUpload. rewrite Hparse.
  destruct (omap validEntry watchHistory) as [|entry entries]; [congruence | reflexivity].
Qed.

(** What the service returns for a history is a page of items with a
    snippet and without page token. *)
Lemma takeout_page (watchHistory : list HistoryEntry) (apiKey : option string)
    (w w' : World) (page : ResultPage) :
  takeout watchHistory apiKey w = (w', Ok page) ->
  nextPageToken page = None
  /\ Forall (fun video => snippet video <> None) (items page)
  /\ (length (items page) <= 15)%nat.
Proof.
  unfold processTakeoutFile. intros Hrun.
  apply processVideoUrls_returns in Hrun as (pool & filtered & _ & _ & Hf & ->).
  destruct (Array_filter_Ok _ _ _ Hf) as (_ & Hall & _).
  cbn [items nextPageToken]. split; [reflexivity | split].
  - apply Forall_take. eapply Forall_impl; [exact Hall|]. intros v Hv.
    apply not_short_has_snippet. now apply notShort_true.
  - rewrite length_take. unfold MAX_RESULTS. lia.
Qed.

(** X13. [handleFileUpload] answers 400 exactly when there is no file, the
    file is not JSON, the JSON is not an array, the array holds no object
    whose [titleUrl] and [time] are both non-empty strings, or the service
    throws an instance of [SyntaxError].  In the first four cases it makes
    no call to the API.  Its other answers are 200, 403 and 500.  A member
    of an entry is looked up as in the object [JSON.parse] builds: of two
    members of one name the later one counts. *)
Theorem handleFileUpload_rejects (file : option string) (w : World) :
  (upload_status (snd (upload file w)) = 400
   <-> file = None
       \/ exists text, file = Some text
            /\ (JSON_parse text = None
                \/ (exists value, JSON_parse text = Some value
                      /\ forall elements, value <> JArray elements)
                \/ (exists elements, JSON_parse text = Some (JArray elements)
                      /\ forall entry fields u t,
                           In entry elements -> entry = JObject fields ->
                           JSON_get "titleUrl" fields = Some (JString u) ->
                           JSON_get "time" fields = Some (JString t) ->
                           u = "" \/ t = "")
                \/ exists elements w' code message,
                     JSON_parse text = Some (JArray elements)
                     /\ takeout (omap validEntry elements) YOUTUBE_API_KEY w
                        = (w', Throw (SyntaxError code message))))
  /\ (file = None
      \/ (exists text, file = Some text
            /\ (JSON_parse text = None
                \/ (exists value, JSON_parse text = Some value
                      /\ forall elements, value <> JArray elements)
                \/ exists elements, JSON_parse text = Some (JArray elements)
                     /\ forall entry fields u t,
                          In entry elements -> entry = JObject fields ->
                          JSON_get "titleUrl" fields = Some (JString u) ->
                          JSON_get "time" fields = Some (JString t) ->
                          u = "" \/ t = "")) ->
      fst (upload file w) = w)
  /\ (upload_status (snd (upload file w)) = 200
      \/ upload_status (snd (upload file w)) = 400
      \/ upload_status (snd (upload file w)) = 403
      \/ upload_status (snd (upload file w)) = 500)
  /\ JSON_get "time" [("titleUrl", JString "u"); ("time", JNumber "1");
                       ("time", JString "t")] = Some (JString "t")
  /\ JSON_get "time" [("titleUrl", JString "u")] = None.
Proof.
  cut ((upload_status (snd (upload file w)) = 400
        <-> file = None
            \/ exists text, file = Some text
                 /\ (JSON_parse text = None
                     \/ (exists value, JSON_parse text = Some value
                           /\ forall elements, value <> JArray elements)
                     \/ (exists elements, JSON_parse text = Some (JArray elements)
                           /\ forall entry fields u t,
                                In entry elements -> entry = JObject fields ->
                                JSON_get "titleUrl" fields = Some (JString u) ->
                                JSON_get "time" fields = Some (JString t) ->
                                u = "" \/ t = "")
                     \/ exists elements w' code message,
                          JSON_parse text = Some (JArray elements)
                          /\ takeout (omap validEntry elements) YOUTUBE_API_KEY w
                             = (w', Throw (SyntaxError code message))))
       /\ (file = None
           \/ (exists text, file = Some text
                 /\ (JSON_parse text = None
                     \/ (exists value, JSON_parse text = Some value
                           /\ forall elements, value <> JArray elements)
                     \/ exists elements, JSON_parse text = Some (JArray elements)
                          /\ forall entry fields u t,
                               In entry elements -> entry = JObject fields ->
                               JSON_get "titleUrl" fields = Some (JString u) ->
                               JSON_get "time" fields = Some (JString t) ->
                               u = "" \/ t = "")) ->
           fst (upload file w) = w)
       /\ (upload_status (snd (upload file w)) = 200
           \/ upload_status (snd (upload file w)) = 400
           \/ upload_status (snd (upload file w)) = 403
           \/ upload_status (snd (upload file w)) = 500)).
  { intros (H1 & H2 & H3). repeat split; try assumption; apply H1. }
  destruct file as [text|].
  2:{ cbn. repeat split; auto. }
  destruct (JSON_parse text) as [value|] eqn:Hparse.
  2:{ unfold handleFileUpload. rewrite Hparse. cbn. repeat split; eauto 10. }
  assert (Hother : (forall elements, value <> JArray elements) ->
                   upload (Some text) w
                   = (w, {| upload_status := 400;
                            upload_body :=
                              UploadError
                                "Invalid watch history format. The file should contain an array of watch history entries."
                                None |})).
  { intros Hno. unfold handleFileUpload. rewrite Hparse.
    destruct value; try reflexivity. now contradiction (Hno elements). }
  assert (Hcase : (exists l, value = JArray l) \/ forall l, value <> JArray l).
  { destruct value; try (right; discriminate). left. eauto. }
  destruct Hcase as [[elements ->] | Hno].
  2:{ rewrite (Hother Hno). cbn [fst snd upload_status].
      split; [| split; [reflexivity | tauto]].
      split; [| reflexivity].
      intros _. right. exists text. split; [reflexivity|]. right. left.
      exists value. auto. }
  destruct (omap validEntry elements) as [|entry entries] eqn:Hvalid.
  { unfold handleFileUpload. rewrite Hparse, Hvalid. cbn.
    pose proof (proj1 (no_valid_entry elements) Hvalid) as Hnone.
    split; [| split; [reflexivity | tauto]].
    split; [| reflexivity].
    intros _. right. exists text. split; [reflexivity|]. right. right. left.
    exists elements. auto. }
  assert (Hsome : ~ (forall entry fields u t,
                        In entry elements -> entry = JObject fields ->
                        JSON_get "titleUrl" fields = Some (JString u) ->
                        JSON_get "time" fields = Some (JString t) ->
                        u = "" \/ t = "")).
  { intros H. apply (proj2 (no_valid_entry elements)) in H. congruence. }
  rewrite (handleFileUpload_checked text elements w Hparse) by congruence.
  rewrite Hvalid.
  destruct (takeout (entry :: entries) YOUTUBE_API_KEY w) as [w' [result|e]] eqn:Hrun.
  - assert (Hstatus :
      upload_status
        (snd match channelKeys (items result) [] with
             | Ok channelCounts =>
                 (w', {| upload_status := 200;
                         upload_body :=
                           UploadRecommendations (items result) (nextPageToken result)
                             (length (items result)) (length (entry :: entries))
                             (length channelCounts)
                             (videosPerChannel_upload (length (items result))
                                (length channelCounts)) |})
             | Throw e => (w', uploadFailure NODE_ENV e)
             end) = 200).
    { destruct (takeout_page _ _ _ _ _ Hrun) as (_ & Hsn & _).
      destruct (channelKeys_distinct (items result) Hsn) as (keys & -> & _).
      reflexivity. }
    split; [| split].
    + rewrite Hstatus. split; [discriminate|].
      intros [Hnone | (text' & [= <-] & Hc)]; [discriminate|].
      rewrite Hparse in Hc.
      destruct Hc as [Hc | [(value & [= <-] & Hno) | [(l & [= <-] & Hl)
                                | (l & w'' & code & message & [= <-] & Hthrow)]]].
      * discriminate.
      * now contradiction (Hno elements).
      * contradiction.
      * rewrite Hvalid in Hthrow. congruence.
    + intros [Hnone | (text' & [= <-] & Hc)]; [discriminate|].
      rewrite Hparse in Hc.
      destruct Hc as [Hc | [(value & [= <-] & Hno) | (l & [= <-] & Hl)]].
      * discriminate.
      * now contradiction (Hno elements).
      * contradiction.
    + rewrite Hstatus. tauto.
  - cbn [fst snd]. rewrite uploadFailure_status.
    split; [| split].
    + split.
      * destruct (instanceof_SyntaxError e) eqn:Hclass.
        -- intros _. apply instanceof_SyntaxError_iff in Hclass as (code & message & ->).
           right. exists text. split; [reflexivity|]. right. right. right.
           exists elements, w', code, message. rewrite Hvalid. auto.
        -- case_bool_decide; discriminate.
      * intros [Hnone | (text' & [= <-] & Hc)]; [discriminate|].
        rewrite Hparse in Hc.
        destruct Hc as [Hc | [(value & [= <-] & Hno) | [(l & [= <-] & Hl)
                                  | (l & w'' & code & message & [= <-] & Hthrow)]]].
        -- discriminate.
        -- now contradiction (Hno elements).
        -- contradiction.
        -- rewrite Hvalid, Hrun in Hthrow. injection Hthrow as _ ->. reflexivity.
    + intros [Hnone | (text' & [= <-] & Hc)]; [discriminate|].
      rewrite Hparse in Hc.
      destruct Hc as [Hc | [(value & [= <-] & Hno) | (l & [= <-] & Hl)]].
      * discriminate.
      * now contradiction (Hno elements).
      * contradiction.
    + destruct (instanceof_SyntaxError e); [tauto|]. case_bool_decide; tauto.
Qed.

(** X14. Whatever page the service returns for the valid entries,
    [handleFileUpload] answers 200 with its items, no page token,
    [processedEntries] the number of valid entries and [uniqueChannels] the
    number of distinct channel ids.  A page without items is answered in the
    same way, with [total] 0 and a [videosPerChannel] that is [NaN], where
    the URL handler answers 404. *)
Theorem handleFileUpload_success (text : string) (watchHistory : list JSON)
    (w w' : World) (page : ResultPage) :
  JSON_parse text = Some (JArray watchHistory) ->
  omap validEntry watchHistory <> [] ->
  takeout (omap validEntry watchHistory) YOUTUBE_API_KEY w = (w', Ok page) ->
  let total := length (items page) in
  let uniqueChannels := length (remove_dups (map channel_of (items page))) in
  upload (Some text) w
  = (w', {| upload_status := 200;
            upload_body :=
              UploadRecommendations (items page) None total
                (length (omap validEntry watchHistory)) uniqueChannels
                (videosPerChannel_upload total uniqueChannels) |})
  /\ (uniqueChannels <= total)%nat /\ (total <= 15)%nat
  /\ (items page = [] ->
      total = 0%nat /\ uniqueChannels = 0%nat
      /\ videosPerChannel_upload total uniqueChannels = RatioNaN).
Proof.
  intros Hparse Hvalid Hrun total uniqueChannels.
  rewrite (handleFileUpload_checked text watchHistory w Hparse Hvalid), Hrun.
  destruct (takeout_page _ _ _ _ _ Hrun) as (Htoken & Hsn & Hlen).
  destruct (channelKeys_distinct (items page) Hsn) as (keys & Hkeys & Hcount).
  rewrite Hkeys, Hcount, Htoken.
  destruct (remove_dups_length (map channel_of (items page))) as [Hle _].
  rewrite length_map in Hle.
  split; [reflexivity | split; [exact Hle | split; [exact Hlen|]]].
  intros Hnil. unfold uniqueChannels, total. rewrite Hnil. repeat split.
Qed.

(** X15. When the service throws, [handleFileUpload] first tests the class
    of the thrown value and then its [code]: an instance of [SyntaxError]
    is answered with 400 and the invalid-file message, whatever its [code];
    any other value with 403 when its [code] is 403 and with 500 otherwise:
    a [code] of 404, which the URL handler answers with 404, and the
    [No recommendations found] of a history without usable entry
    included. *)
Theorem handleFileUpload_failure (text : string) (watchHistory : list JSON)
    (w w' : World) (e : error) :
  JSON_parse text = Some (JArray watchHistory) ->
  omap validEntry watchHistory <> [] ->
  takeout (omap validEntry watchHistory) YOUTUBE_API_KEY w = (w', Throw e) ->
  fst (upload (Some text) w) = w'
  /\ (forall code message,
         e = SyntaxError code message ->
         snd (upload (Some text) w)
         = {| upload_status := 400;
              upload_body :=
                UploadError
                  "Invalid file format. Please upload a valid JSON file from Google Takeout."
                  None |})
  /\ ((forall code message, e <> SyntaxError code message) ->
      error_code e = Some 403 ->
      upload_status (snd (upload (Some text) w)) = 403)
  /\ ((forall code message, e <> SyntaxError code message) ->
      error_code e <> Some 403 ->
      upload_status (snd (upload (Some text) w)) = 500)
  /\ (forall message,
         e = ApiError (Some 404) message ->
         upload_status (snd (upload (Some text) w)) = 500)
  /\ (e = Error "No recommendations found" ->
      upload_status (snd (upload (Some text) w)) = 500).
Proof.
  intros Hparse Hvalid Hrun.
  rewrite (handleFileUpload_checked text watchHistory w Hparse Hvalid), Hrun.
  cbn [fst snd]. split; [reflexivity|].
  assert (Hother : (forall code message, e <> SyntaxError code message) ->
                   instanceof_SyntaxError e = false).
  { intros Hno. destruct e as [| | |code message]; try reflexivity.
    now contradiction (Hno code message). }
  split; [| split; [| split; [| split]]].
  - now intros code message ->.
  - intros Hno Hcode. rewrite uploadFailure_status, (Hother Hno).
    now rewrite bool_decide_eq_true_2.
  - intros Hno Hcode. rewrite uploadFailure_status, (Hother Hno).
    now rewrite bool_decide_eq_false_2.
  - intros message ->. reflexivity.
  - intros ->. reflexivity.
Qed.

End UploadProperties.

(** ** The further properties on concrete inputs *)

(** One source whose related videos hold a stream of more than a day. *)
Lemma malformed_duration_aborts_witness :
  exists m,
    processVideoUrls http_URL Demo.videos_list DemoUpload.search_list
      ["https://youtu.be/abc"] None None 0%nat
    = (2%nat, Throw (TypeError m)).
Proof.
  refine (malformed_duration_aborts nat http_URL Demo.videos_list DemoUpload.search_list
            ["https://youtu.be/abc"] None None 0%nat 2%nat DemoUpload.streamItems
            (Demo.video "stream" "P1DT2H" "Stream")
            {| duration := Some "P1DT2H"; dimension := None |}
            (Demo.snippetOf "Stream" "UC-demo") eq_refl _ eq_refl eq_refl _).
  - right. now left.
  - cbn. rewrite <- includes_iff. discriminate.
Defined.

(** One source whose related videos are two search hits. *)
Lemma snippet_only_candidates_witness :
  processVideoUrls http_URL Demo.videos_list Demo.search_list ["https://youtu.be/hits"]
    None (Some "tok") 0%nat
  = (2%nat, Ok {| items := []; nextPageToken := Some "tok" |}).
Proof.
  refine (proj2 (snippet_only_candidates nat http_URL Demo.videos_list Demo.search_list
                   ["https://youtu.be/hits"] None (Some "tok") 0%nat 2%nat
                   [Demo.searchHit "a1" "First"; Demo.searchHit "b2" "Second"]
                   eq_refl _ _)).
  - discriminate.
  - repeat constructor.
Defined.

(** The related videos of the source [pair]. *)
Lemma getRelatedVideos_page_witness :
  items {| items := Demo.pairItems; nextPageToken := Some "CAMQAA" |} <> [].
Proof.
  exact (proj1 (getRelatedVideos_page nat Demo.search_list
                  (Demo.video "pair" "PT12M" "Source") None None 1%nat 2%nat
                  {| items := Demo.pairItems; nextPageToken := Some "CAMQAA" |} eq_refl)).
Defined.

(** The URL handler at the source [pair]. *)
Lemma handleUrlInput_success_witness :
  status (snd (handleUrlInput http_URL Demo.videos_list Demo.search_list None None
                 {| body_urls := Some ["https://youtu.be/pair"];
                    query_pageToken := Some "tok" |} 0%nat)) = 200.
Proof.
  pose proof (handleUrlInput_success nat http_URL Demo.videos_list Demo.search_list
                None None
                {| body_urls := Some ["https://youtu.be/pair"];
                   query_pageToken := Some "tok" |}
                ["https://youtu.be/pair"] 0%nat 2%nat Demo.pairPage eq_refl) as H.
  cbv zeta in H. destruct H as [H _].
  - simpl. lia.
  - reflexivity.
  - discriminate.
  - now rewrite H.
Defined.

(** The URL handler at a source out of quota. *)
Lemma handleUrlInput_failure_witness :
  status (snd (handleUrlInput http_URL Demo.videos_list Demo.search_list None None
                 {| body_urls := Some ["https://youtu.be/quota"];
                    query_pageToken := None |} 0%nat)) = 403.
Proof.
  refine (proj1 (proj2 (proj2 (handleUrlInput_failure nat http_URL Demo.videos_list
            Demo.search_list None None
            {| body_urls := Some ["https://youtu.be/quota"]; query_pageToken := None |}
            ["https://youtu.be/quota"] 0%nat 2%nat
            (ApiError (Some 403) "quotaExceeded") eq_refl _ _ eq_refl))) eq_refl).
  - simpl. lia.
  - constructor. reflexivity.
Defined.

(** An upload of one entry whose related videos are all filtered out. *)
Lemma handleFileUpload_success_witness :
  handleFileUpload http_URL Demo.videos_list Demo.search_list Demo.Date_parse
    DemoUpload.JSON_parse None None (Some (DemoUpload.file_of DemoUpload.hitsUrl)) 0%nat
  = (2%nat, {| upload_status := 200;
               upload_body := UploadRecommendations [] None 0 1 0 RatioNaN |}).
Proof.
  pose proof (handleFileUpload_success nat http_URL Demo.videos_list Demo.search_list
                Demo.Date_parse DemoUpload.JSON_parse None None
                (DemoUpload.file_of DemoUpload.hitsUrl)
                [JObject [("titleUrl", JString DemoUpload.hitsUrl);
                          ("time", JString "2024-01-02T00:00:00Z")]]
                0%nat 2%nat {| items := []; nextPageToken := None |} eq_refl) as H.
  cbv zeta in H. destruct H as [H _].
  - discriminate.
  - reflexivity.
  - exact H.
Defined.

(** An upload of one entry whose source is out of quota, and the same
    upload when the client cannot parse the answer of the search. *)
Lemma handleFileUpload_failure_witness :
  upload_status
    (snd (handleFileUpload http_URL Demo.videos_list Demo.search_list Demo.Date_parse
            DemoUpload.JSON_parse None None
            (Some (DemoUpload.file_of DemoUpload.quotaUrl)) 0%nat)) = 403
  /\ snd (handleFileUpload http_URL Demo.videos_list DemoUpload.garbled_search
            Demo.Date_parse DemoUpload.JSON_parse None None
            (Some (DemoUpload.file_of DemoUpload.quotaUrl)) 0%nat)
     = {| upload_status := 400;
          upload_body :=
            UploadError
              "Invalid file format. Please upload a valid JSON file from Google Takeout."
              None |}.
Proof.
  split.
  - refine (proj1 (proj2 (proj2 (handleFileUpload_failure nat http_URL Demo.videos_list
              Demo.search_list Demo.Date_parse DemoUpload.JSON_parse None None
              (DemoUpload.file_of DemoUpload.quotaUrl)
              [JObject [("titleUrl", JString DemoUpload.quotaUrl);
                        ("time", JString "2024-01-02T00:00:00Z")]]
              0%nat 2%nat (ApiError (Some 403) "quotaExceeded") eq_refl _ eq_refl)))
              _ eq_refl); discriminate.
  - refine (proj1 (proj2 (handleFileUpload_failure nat http_URL Demo.videos_list
              DemoUpload.garbled_search Demo.Date_parse DemoUpload.JSON_parse None None
              (DemoUpload.file_of DemoUpload.quotaUrl)
              [JObject [("titleUrl", JString DemoUpload.quotaUrl);
                        ("time", JString "2024-01-02T00:00:00Z")]]
              0%nat 2%nat (SyntaxError None "Unexpected token < in JSON at position 0")
              eq_refl _ eq_refl))
              None "Unexpected token < in JSON at position 0" eq_refl).
    discriminate.
Defined.
